(** * The login TLV codec of [src/core/tlv.ts]

    A shallow embedding of [packTlv] and of the tag encoder registry [map],
    followed by the properties of the wire format that the handshake relies
    on.  Buffers are lists of bytes, JavaScript numbers are integers,
    JavaScript strings are lists of UTF-16 code units, and the effects an
    encoder can have (reading the client, drawing random bytes, reading the
    clock, calling the signer or the proof-of-work solver, throwing) are
    threaded through a small state-and-exception monad. *)

From Stdlib Require Import Strings.String Strings.Ascii Strings.Byte.
From Stdlib Require Import ZArith List Lia Bool.
Import ListNotations.
Open Scope Z_scope.

(** ** Buffers and big-endian integers *)

Definition bytes := list byte.

Definition byte_to_Z (b : byte) : Z := Z.of_N (Byte.to_N b).

(** The byte holding the low eight bits of [z], as [buf[i] = z] stores it. *)
Definition byte_of_Z (z : Z) : byte :=
  match Byte.of_N (Z.to_N (z mod 256)) with
  | Some b => b
  | None => x00
  end.

(** [be_bytes n v]: the [n] low bytes of [v], most significant first. *)
Fixpoint be_bytes (n : nat) (v : Z) : bytes :=
  match n with
  | O => []
  | S k => byte_of_Z (v / 256 ^ Z.of_nat k) :: be_bytes k v
  end.

(** [be_value bs]: the unsigned integer a buffer spells, most significant
    byte first ([readUInt16BE], [readUInt32BE], [BigInt("0x" + hex)]). *)
Definition be_value (bs : bytes) : Z :=
  fold_left (fun acc b => acc * 256 + byte_to_Z b) bs 0.

Definition Buffer_alloc (n : nat) : bytes := repeat x00 n.

(** ** JavaScript strings

    A string is its sequence of UTF-16 code units; [slice] and [length]
    count code units, while [Buffer.from(s)] re-encodes as UTF-8. *)

Definition jsstring := list Z.

(** An ASCII literal of the source as a JavaScript string. *)
Definition lit (s : string) : jsstring :=
  map (fun a => Z.of_N (N_of_ascii a)) (list_ascii_of_string s).

Definition is_high_surrogate (c : Z) : bool := (0xD800 <=? c) && (c <=? 0xDBFF).
Definition is_low_surrogate (c : Z) : bool := (0xDC00 <=? c) && (c <=? 0xDFFF).

Definition utf8_of_code_point (cp : Z) : bytes :=
  if cp <? 0x80 then [byte_of_Z cp]
  else if cp <? 0x800 then
    [byte_of_Z (Z.lor 0xC0 (Z.shiftr cp 6));
     byte_of_Z (Z.lor 0x80 (Z.land cp 0x3F))]
  else if cp <? 0x10000 then
    [byte_of_Z (Z.lor 0xE0 (Z.shiftr cp 12));
     byte_of_Z (Z.lor 0x80 (Z.land (Z.shiftr cp 6) 0x3F));
     byte_of_Z (Z.lor 0x80 (Z.land cp 0x3F))]
  else
    [byte_of_Z (Z.lor 0xF0 (Z.shiftr cp 18));
     byte_of_Z (Z.lor 0x80 (Z.land (Z.shiftr cp 12) 0x3F));
     byte_of_Z (Z.lor 0x80 (Z.land (Z.shiftr cp 6) 0x3F));
     byte_of_Z (Z.lor 0x80 (Z.land cp 0x3F))].

(** [Buffer.from(s)] (UTF-8): a surrogate pair becomes one four-byte
    sequence, a lone surrogate becomes U+FFFD. *)
Fixpoint utf8 (s : jsstring) : bytes :=
  match s with
  | [] => []
  | c :: rest =>
      if is_high_surrogate c then
        match rest with
        | d :: rest' =>
            if is_low_surrogate d then
              utf8_of_code_point
                (0x10000 + Z.shiftl (c - 0xD800) 10 + (d - 0xDC00)) ++ utf8 rest'
            else utf8_of_code_point 0xFFFD ++ utf8 rest
        | [] => utf8_of_code_point 0xFFFD
        end
      else if is_low_surrogate c then utf8_of_code_point 0xFFFD ++ utf8 rest
      else utf8_of_code_point c ++ utf8 rest
  end.

(** [String(n)] for an integer [n]: its decimal digits.  JavaScript prints
    exactly these for the safe integers (below [2 ^ 53] in size); past them
    it prints the shortest digits that read back as the same double, which
    can differ in the low places, and from [1e21] on it uses the exponent
    form.  The encoders apply it to the account number only. *)
Fixpoint decimal_digits (fuel : nat) (n : Z) : jsstring :=
  match fuel with
  | O => []
  | S f =>
      if n <? 10 then [48 + n]
      else decimal_digits f (n / 10) ++ [48 + n mod 10]
  end.

Definition String_of_number (n : Z) : jsstring :=
  if n <? 0 then 45 :: decimal_digits (S (Z.to_nat (Z.log2 (- n)))) (- n)
  else decimal_digits (S (Z.to_nat (Z.log2 n))) n.

(** Hexadecimal text: [buf.toString("hex")], [BigInt("0x" + s)],
    [n.toString(16)], [s.padStart(w, "0")] and [Buffer.from(s, "hex")]. *)

Definition hex_digit (d : Z) : Z := if d <? 10 then 48 + d else 87 + d.

Definition hex_value (c : Z) : option Z :=
  if (48 <=? c) && (c <=? 57) then Some (c - 48)
  else if (97 <=? c) && (c <=? 102) then Some (c - 87)
  else if (65 <=? c) && (c <=? 70) then Some (c - 55)
  else None.

Definition Buffer_toString_hex (b : bytes) : jsstring :=
  flat_map (fun x => [hex_digit (byte_to_Z x / 16); hex_digit (byte_to_Z x mod 16)]) b.

(** The value of a run of hexadecimal digits; [None] where [BigInt] raises
    a SyntaxError (no digit at all, or a character that is not one). *)
Fixpoint hex_fold (acc : Z) (s : jsstring) : option Z :=
  match s with
  | [] => Some acc
  | c :: rest =>
      match hex_value c with
      | Some d => hex_fold (acc * 16 + d) rest
      | None => None
      end
  end.

Definition BigInt_of_hex (s : jsstring) : option Z :=
  match s with
  | [] => None
  | _ => hex_fold 0 s
  end.

Fixpoint hex_digits (fuel : nat) (n : Z) : jsstring :=
  match fuel with
  | O => []
  | S f =>
      if n <? 16 then [hex_digit n]
      else hex_digits f (n / 16) ++ [hex_digit (n mod 16)]
  end.

(** [n.toString(16)] for a non-negative big integer. *)
Definition BigInt_toString16 (n : Z) : jsstring :=
  hex_digits (S (Z.to_nat (Z.log2 n))) n.

Definition padStart (width : nat) (fill : Z) (s : jsstring) : jsstring :=
  repeat fill (width - length s)%nat ++ s.

(** [Buffer.from(s, "hex")]: one byte per pair of digits, stopping at the
    first pair that is not hexadecimal; a trailing single digit is dropped. *)
Fixpoint Buffer_from_hex (s : jsstring) : bytes :=
  match s with
  | hi :: lo :: rest =>
      match hex_value hi, hex_value lo with
      | Some h, Some l => byte_of_Z (h * 16 + l) :: Buffer_from_hex rest
      | _, _ => []
      end
  | _ => []
  end.

(** ** Values, errors and outcomes *)

(** What [writeBytes], [writeTlv], [md5] and [slice] take: a string or a
    buffer. *)
Inductive BinaryLike : Type :=
  | Str (s : jsstring)
  | Buf (b : bytes).

Definition to_buffer (d : BinaryLike) : bytes :=
  match d with
  | Str s => utf8 s
  | Buf b => b
  end.

(** [d.slice(0, n)]: code units of a string, bytes of a buffer. *)
Definition slice0 (n : nat) (d : BinaryLike) : BinaryLike :=
  match d with
  | Str s => Str (firstn n s)
  | Buf b => Buf (firstn n b)
  end.

(** A call argument of [packTlv(tag, ...args)]. *)
Inductive JsVal : Type :=
  | undefined
  | Num (z : Z)
  | Data (d : BinaryLike).

Definition truthy (v : JsVal) : bool :=
  match v with
  | undefined => false
  | Num z => negb (z =? 0)
  | Data (Str []) => false
  | Data _ => true
  end.

Definition arg (i : nat) (args : list JsVal) : JsVal := nth i args undefined.

Inductive JsError : Type := TypeError | RangeError | SyntaxError.

Definition error_name (e : JsError) : string :=
  match e with
  | TypeError => "TypeError"%string
  | RangeError => "RangeError"%string
  | SyntaxError => "SyntaxError"%string
  end.

(** How a call ends: it returns, it throws, or (in the model only) it asks
    for more random bytes than the entropy tape of the world holds. *)
Inductive outcome (A : Type) : Type :=
  | Return (a : A)
  | Throw (e : JsError)
  | Starved.
Arguments Return {A} a.
Arguments Throw {A} e.
Arguments Starved {A}.

(** A parameter annotated [number] / passed on as bytes receives a value of
    that type; any other value is refused with a TypeError. *)
Definition as_number (v : JsVal) : outcome Z :=
  match v with
  | Num z => Return z
  | _ => Throw TypeError
  end.

Definition as_data (v : JsVal) : outcome BinaryLike :=
  match v with
  | Data d => Return d
  | _ => Throw TypeError
  end.

(** [Buffer.concat] and the cipher take buffers only. *)
Definition as_buffer (d : BinaryLike) : outcome bytes :=
  match d with
  | Buf b => Return b
  | Str _ => Throw TypeError
  end.

(** [buf.writeUInt16BE(v)] / [buf.writeUInt32BE(v)] on a fresh buffer of
    that width: a RangeError outside the unsigned range. *)
Definition Buffer_writeUInt16BE (v : Z) : outcome bytes :=
  if (0 <=? v) && (v <=? 0xFFFF) then Return (be_bytes 2 v) else Throw RangeError.

Definition Buffer_writeUInt32BE (v : Z) : outcome bytes :=
  if (0 <=? v) && (v <=? 0xFFFFFFFF) then Return (be_bytes 4 v) else Throw RangeError.

(** [x & 0xffffffff] on a number: the signed 32-bit wrap-around of its
    integer part. *)
Definition to_int32 (z : Z) : Z := (z + 2 ^ 31) mod 2 ^ 32 - 2 ^ 31.

(** ** The binary writer *)

Module Writer.

(** Modelled from the spec: [src/core/writer.ts] is absent.  The writer is
    the append-only builder of section 4.1: big-endian integers of fixed
    width (out-of-range values are rejected), raw bytes, and fields with a
    two-byte length prefix.  It "maintains an internal ordered byte
    sequence"; [unshift] prepends to it, [readableLength] is its length and
    [read()] "finalizes and returns the accumulated bytes".  The section
    gives [read()] no effect on the sequence, so it has none here: a writer
    that is written to after a [read()], as in tag 0x548, still holds what
    it held. *)
Record t : Type := { readable : bytes }.

Definition empty : t := {| readable := [] |}.

Definition push (b : bytes) (w : t) : t := {| readable := readable w ++ b |}.

Definition in_range (lo hi v : Z) : bool := (lo <=? v) && (v <=? hi).

Definition writeU8 (v : Z) (w : t) : outcome t :=
  if in_range 0 0xFF v then Return (push (be_bytes 1 v) w) else Throw RangeError.

Definition writeU16 (v : Z) (w : t) : outcome t :=
  if in_range 0 0xFFFF v then Return (push (be_bytes 2 v) w) else Throw RangeError.

Definition write32 (v : Z) (w : t) : outcome t :=
  if in_range (- 2 ^ 31) (2 ^ 31 - 1) v then Return (push (be_bytes 4 v) w)
  else Throw RangeError.

Definition writeU32 (v : Z) (w : t) : outcome t :=
  if in_range 0 0xFFFFFFFF v then Return (push (be_bytes 4 v) w) else Throw RangeError.

Definition writeU64 (v : Z) (w : t) : outcome t :=
  if in_range 0 (2 ^ 64 - 1) v then Return (push (be_bytes 8 v) w) else Throw RangeError.

Definition writeBytes (d : BinaryLike) (w : t) : outcome t :=
  Return (push (to_buffer d) w).

Definition writeTlv (d : BinaryLike) (w : t) : outcome t :=
  let b := to_buffer d in
  if in_range 0 0xFFFF (Z.of_nat (length b))
  then Return (push (be_bytes 2 (Z.of_nat (length b)) ++ b) w)
  else Throw RangeError.

Definition readableLength (w : t) : Z := Z.of_nat (length (readable w)).

Definition unshift (b : bytes) (w : t) : t := {| readable := b ++ readable w |}.

(** [read()]: the accumulated bytes. *)
Definition read (w : t) : bytes := readable w.

End Writer.

(** ** The client an encoder is bound to *)

Module Version.
Record t : Type := {
  release : BinaryLike;
  codename : BinaryLike;
  incremental : BinaryLike
}.
End Version.

Module Device.
Record t : Type := {
  guid : BinaryLike;
  ip_address : BinaryLike;
  imei : jsstring;
  os_type : BinaryLike;
  version : Version.t;
  sim : BinaryLike;
  apn : BinaryLike;
  model : BinaryLike;
  brand : BinaryLike;
  mac_address : BinaryLike;
  android_id : BinaryLike;
  imsi : BinaryLike;
  wifi_bssid : BinaryLike;
  wifi_ssid : BinaryLike;
  bootloader : BinaryLike;
  proc_version : BinaryLike;
  fingerprint : BinaryLike;
  boot_id : BinaryLike;
  baseband : BinaryLike
}.
End Device.

Module Apk.
Record t : Type := {
  id : BinaryLike;
  name : jsstring;
  ver : BinaryLike;
  sign : BinaryLike;
  sdkver : BinaryLike;
  ssover : Z;
  appid : Z;
  subid : Z;
  bitmap : Z;
  main_sig_map : Z;
  sub_sig_map : Z;
  buildtime : Z
}.
End Apk.

(** The session signature state [this.sig]. *)
Module Sig.
Record t : Type := {
  seq : Z;
  tgtgt : bytes;
  ksid : JsVal;
  t104 : BinaryLike;
  tgt : BinaryLike;
  d2 : BinaryLike;
  srm_token : BinaryLike;
  t174 : BinaryLike;
  t547 : BinaryLike
}.
End Sig.

Record BaseClient : Type := {
  uin : Z;
  device : Device.t;
  apk : Apk.t;
  sig : Sig.t
}.

(** ** The world outside the codec *)

(** A call of the signer or of the proof-of-work solver, the two external
    primitives an encoder hands data to (section 6). *)
Inductive Call : Type :=
  | CallSign (timestamp_ms : Z) (salt : bytes)
  | CallCalcPoW (challenge : bytes).

Record World : Type := {
  entropy : bytes;        (* the random bytes to come: those of
                             [crypto.randomBytes] and the cipher's filler *)
  now_ms : Z;             (* [Date.now()] *)
  journal : list Call     (* signer and solver calls so far, oldest first *)
}.

Record State : Type := { this : BaseClient; world : World }.

(** The imported functions whose code lies outside [tlv.ts], taken as
    parameters; of SHA-256 only the width of its digest is used.

    Modelled from the spec: [src/core/tea.ts] is absent.  Section 4.2 has
    [encrypt] pad the plaintext "with a header byte encoding padding length
    plus random filler bytes", so a ciphertext is a function of the filler
    as well as of plaintext and key: [tea_filler] is the number of filler
    bytes for a plaintext of the given length and [tea_blocks] the cipher
    once the filler is drawn.

    [loosely_equals d k] is JavaScript's [d == k] for a string or buffer [d]
    and a number [k]; it converts [d] to a number, a floating-point parse
    that is left to the runtime. *)
Class Externals : Type := {
  md5 : bytes -> bytes;
  sha256 : bytes -> bytes;
  sha256_length : forall b, length (sha256 b) = 32%nat;
  tea_filler : nat -> nat;
  tea_blocks : bytes -> bytes -> bytes -> bytes;
  loosely_equals : BinaryLike -> Z -> bool;
  pb_encode : list (Z * BinaryLike) -> bytes;
  sign : Z -> bytes -> bytes;
  calcPoW : bytes -> bytes;
  BUF0 : bytes
}.

(** ** The monad of encoder bodies *)

Definition M (A : Type) : Type := State -> outcome A * State.

Definition ret {A} (a : A) : M A := fun s => (Return a, s).

Definition bind {A B} (m : M A) (k : A -> M B) : M B :=
  fun s =>
    match m s with
    | (Return a, s') => k a s'
    | (Throw e, s') => (Throw e, s')
    | (Starved, s') => (Starved, s')
    end.

Notation "x <- m ;; k" := (bind m (fun x => k))
  (at level 100, m at next level, right associativity).
Notation "m >>= k" := (bind m k) (at level 58, left associativity).

Definition lift {A} (o : outcome A) : M A := fun s => (o, s).

Definition throw {A} (e : JsError) : M A := lift (Throw e).

(** Reading a field of [this]. *)
Definition gets {A} (f : BaseClient -> A) : M A := fun s => (Return (f (this s)), s).

Definition this_device {A} (f : Device.t -> A) : M A := gets (fun c => f (device c)).
Definition this_apk {A} (f : Apk.t -> A) : M A := gets (fun c => f (apk c)).
Definition this_sig {A} (f : Sig.t -> A) : M A := gets (fun c => f (sig c)).

Definition crypto_randomBytes (n : nat) : M bytes :=
  fun s =>
    let w := world s in
    if (n <=? length (entropy w))%nat
    then (Return (firstn n (entropy w)),
          {| this := this s;
             world := {| entropy := skipn n (entropy w);
                         now_ms := now_ms w;
                         journal := journal w |} |})
    else (Starved, s).

Definition Date_now : M Z := fun s => (Return (now_ms (world s)), s).

Definition record (c : Call) : M unit :=
  fun s =>
    let w := world s in
    (Return tt,
     {| this := this s;
        world := {| entropy := entropy w;
                    now_ms := now_ms w;
                    journal := journal w ++ [c] |} |}).

(** Method calls on a writer: the receiver is evaluated first, then the
    argument, then the method runs. *)
Definition call {A} (op : A -> Writer.t -> outcome Writer.t) (a : M A)
  : Writer.t -> M Writer.t :=
  fun w => x <- a ;; lift (op x w).

Definition new_Writer : M Writer.t := ret Writer.empty.
Definition val {A} (a : A) : M A := ret a.

Definition writeU8 := call Writer.writeU8.
Definition writeU16 := call Writer.writeU16.
Definition write32 := call Writer.write32.
Definition writeU32 := call Writer.writeU32.
Definition writeU64 := call Writer.writeU64.
Definition writeBytes := call Writer.writeBytes.
Definition writeTlv := call Writer.writeTlv.

(** [w.read()] at the end of a chain. *)
Definition read (w : Writer.t) : M bytes := ret (Writer.read w).

Definition randomBuf (n : nat) : M BinaryLike :=
  b <- crypto_randomBytes n ;; ret (Buf b).

(** [(Date.now() / 1000) & 0xffffffff] *)
Definition unix_seconds : M Z :=
  now <- Date_now ;; ret (to_int32 (Z.quot now 1000)).

(** [for (let v of xs) body] over a writer. *)
Fixpoint for_of {A} (xs : list A) (body : A -> Writer.t -> M Writer.t)
  (w : Writer.t) : M Writer.t :=
  match xs with
  | [] => ret w
  | x :: rest => w' <- body x w ;; for_of rest body w'
  end.

Definition jsstring_eqb (a b : jsstring) : bool :=
  if list_eq_dec Z.eq_dec a b then true else false.

(** [new Set(xs)]: the distinct elements in order of first insertion. *)
Definition Set_of (xs : list jsstring) : list jsstring :=
  fold_left (fun acc x => if existsb (jsstring_eqb x) acc then acc else acc ++ [x]) xs [].

(** ** The proof-of-work puzzle of tag 0x548 *)

Definition first_byte_is (src : bytes) (v : byte) : bool :=
  match src with
  | b :: _ => Byte.eqb b v
  | [] => false
  end.

(** [while (src[0] === 0 || src[0] === 255) src[0] = crypto.randomBytes(1)[0]];
    every turn takes one byte of entropy, so the tape bounds the turns. *)
Fixpoint reroll (turns : nat) (src : bytes) : M bytes :=
  if first_byte_is src x00 || first_byte_is src xff then
    match turns with
    | O => lift Starved
    | S k =>
        r <- crypto_randomBytes 1 ;;
        reroll k (match r with b :: _ => b :: tl src | [] => src end)
    end
  else ret src.

Definition reroll_first_byte (src : bytes) : M bytes :=
  fun s => reroll (S (length (entropy (world s)))) src s.

(** [src]: 128 random bytes, the first one drawn again until it is neither
    0x00 nor 0xFF. *)
Definition pow_seed : M bytes :=
  src <- crypto_randomBytes 128 ;;
  reroll_first_byte src.

Definition cnt : Z := 10000.

(** [dst]: [srcNum + cnt] written as 256 hexadecimal digits and read back
    as a buffer. *)
Definition pow_dst (src : bytes) : option bytes :=
  match BigInt_of_hex (Buffer_toString_hex src) with
  | Some srcNum =>
      let dstNum := srcNum + cnt in
      Some (Buffer_from_hex (padStart 256 48 (BigInt_toString16 dstNum)))
  | None => None
  end.

(** ** The tag encoders *)

Definition Encoder : Type := list JsVal -> M Writer.t.
Definition Packer : Type := Z -> list JsVal -> M bytes.

Section Encoders.
Context `{Externals}.

(** The signer and the solver; each call is entered in the journal. *)
Definition sign_call (timestamp_ms : Z) (salt : bytes) : M bytes :=
  _ <- record (CallSign timestamp_ms salt) ;; ret (sign timestamp_ms salt).

Definition this_calcPoW (data : bytes) : M bytes :=
  _ <- record (CallCalcPoW data) ;; ret (calcPoW data).

Definition md5_of (d : BinaryLike) : BinaryLike := Buf (md5 (to_buffer d)).

(** [tea.encrypt(data, key)]: the filler is drawn, then the blocks are
    enciphered. *)
Definition tea_encrypt (data key : bytes) : M bytes :=
  filler <- crypto_randomBytes (tea_filler (length data)) ;;
  ret (tea_blocks filler data key).

Definition enc_0x01 : Encoder := fun _ =>
  new_Writer
    >>= writeU16 (val 1)
    >>= writeBytes (randomBuf 4)
    >>= writeU32 (gets uin)
    >>= write32 unix_seconds
    >>= writeBytes (this_device Device.ip_address)
    >>= writeU16 (val 0).

Definition enc_0x08 : Encoder := fun _ =>
  new_Writer >>= writeU16 (val 0) >>= writeU32 (val 2052) >>= writeU16 (val 0).

Definition enc_0x16 : Encoder := fun _ =>
  new_Writer
    >>= writeU32 (this_apk Apk.ssover)
    >>= writeU32 (this_apk Apk.appid)
    >>= writeU32 (this_apk Apk.subid)
    >>= writeBytes (this_device Device.guid)
    >>= writeTlv (this_apk Apk.id)
    >>= writeTlv (this_apk Apk.ver)
    >>= writeTlv (this_apk Apk.sign).

Definition enc_0x18 : Encoder := fun _ =>
  new_Writer
    >>= writeU16 (val 1)
    >>= writeU32 (val 1536)
    >>= writeU32 (this_apk Apk.appid)
    >>= writeU32 (val 0)
    >>= writeU32 (gets uin)
    >>= writeU16 (val 0)
    >>= writeU16 (val 0).

Definition enc_0x1B : Encoder := fun _ =>
  new_Writer
    >>= writeU32 (val 0)
    >>= writeU32 (val 0)
    >>= writeU32 (val 3)
    >>= writeU32 (val 4)
    >>= writeU32 (val 72)
    >>= writeU32 (val 2)
    >>= writeU32 (val 2)
    >>= writeU16 (val 0).

Definition enc_0x1D : Encoder := fun _ =>
  new_Writer
    >>= writeU8 (val 1)
    >>= writeU32 (this_apk Apk.bitmap)
    >>= writeU32 (val 0)
    >>= writeU8 (val 0)
    >>= writeU32 (val 0).

Definition enc_0x1F : Encoder := fun _ =>
  new_Writer
    >>= writeU8 (val 0)
    >>= writeTlv (val (Str (lit "android")))
    >>= writeTlv (val (Str (lit "7.1.2")))
    >>= writeU16 (val 2)
    >>= writeTlv (val (Str (lit "China Mobile GSM")))
    >>= writeTlv (val (Buf BUF0))
    >>= writeTlv (val (Str (lit "wifi"))).

Definition enc_0x33 : Encoder := fun _ =>
  new_Writer >>= writeBytes (this_device Device.guid).

Definition enc_0x35 : Encoder := fun args =>
  let deviceType := arg 0 args in
  new_Writer >>= writeU32 (lift (as_number deviceType)).

Definition enc_0x100 : Encoder := fun args =>
  let sub_id := arg 0 args in
  new_Writer
    >>= writeU16 (val 1)
    >>= writeU32 (this_apk Apk.ssover)
    >>= write32 (this_apk Apk.appid)
    >>= writeU32 (if truthy sub_id then lift (as_number sub_id)
                  else this_apk Apk.subid)
    >>= writeU32 (val 0)
    >>= writeU32 (this_apk Apk.main_sig_map).

Definition enc_0x104 : Encoder := fun _ =>
  new_Writer >>= writeBytes (this_sig Sig.t104).

Definition enc_0x106 : Encoder := fun args =>
  let md5pass := arg 0 args in
  body <- new_Writer
    >>= writeU16 (val 4)
    >>= writeBytes (randomBuf 4)
    >>= writeU32 (this_apk Apk.ssover)
    >>= writeU32 (this_apk Apk.appid)
    >>= writeU32 (val 0)
    >>= writeU64 (gets uin)
    >>= write32 unix_seconds
    >>= writeBytes (val (Buf (Buffer_alloc 4)))
    >>= writeU8 (val 1)
    >>= writeBytes (lift (as_data md5pass))
    >>= writeBytes (k <- this_sig Sig.tgtgt ;; ret (Buf k))
    >>= writeU32 (val 0)
    >>= writeU8 (val 1)
    >>= writeBytes (this_device Device.guid)
    >>= writeU32 (this_apk Apk.subid)
    >>= writeU32 (val 1)
    >>= writeTlv (u <- gets uin ;; ret (Str (String_of_number u)))
    >>= writeU16 (val 0)
    >>= read ;;
  u <- gets uin ;;
  buf <- lift (Buffer_writeUInt32BE u) ;;
  pass <- lift (as_data md5pass) ;;
  pass <- lift (as_buffer pass) ;;
  let key := md5 (pass ++ Buffer_alloc 4 ++ buf) in
  new_Writer >>= writeBytes (c <- tea_encrypt body key ;; ret (Buf c)).

Definition enc_0x107 : Encoder := fun _ =>
  new_Writer
    >>= writeU16 (val 0)
    >>= writeU8 (val 0)
    >>= writeU16 (val 0)
    >>= writeU8 (val 1).

Definition enc_0x108 : Encoder := fun _ =>
  new_Writer
    >>= writeBytes
          (ksid <- this_sig Sig.ksid ;;
           if truthy ksid then lift (as_data ksid)
           else imei <- this_device Device.imei ;;
                name <- this_apk Apk.name ;;
                ret (Buf (utf8 (lit "|" ++ imei ++ lit "|" ++ name)))).

Definition enc_0x109 : Encoder := fun _ =>
  new_Writer
    >>= writeBytes (imei <- this_device Device.imei ;; ret (md5_of (Str imei))).

Definition enc_0x10a : Encoder := fun _ =>
  new_Writer >>= writeBytes (this_sig Sig.tgt).

Definition enc_0x112 : Encoder := fun _ =>
  new_Writer >>= writeTlv (u <- gets uin ;; ret (Str (String_of_number u))).

Definition enc_0x116 : Encoder := fun _ =>
  new_Writer
    >>= writeU8 (val 0)
    >>= writeU32 (this_apk Apk.bitmap)
    >>= writeU32 (this_apk Apk.sub_sig_map)
    >>= writeU8 (val 1)
    >>= writeU32 (val 1600000226).

Definition enc_0x124 : Encoder := fun _ =>
  new_Writer
    >>= writeTlv (this_device (fun d => slice0 16 (Device.os_type d)))
    >>= writeTlv (this_device (fun d => slice0 16 (Version.release (Device.version d))))
    >>= writeU16 (val 2)
    >>= writeTlv (this_device (fun d => slice0 16 (Device.sim d)))
    >>= writeU16 (val 0)
    >>= writeTlv (this_device (fun d => slice0 16 (Device.apn d))).

Definition enc_0x128 : Encoder := fun _ =>
  new_Writer
    >>= writeU16 (val 0)
    >>= writeU8 (val 0)
    >>= writeU8 (val 1)
    >>= writeU8 (val 0)
    >>= writeU32 (val 16777216)
    >>= writeTlv (this_device (fun d => slice0 32 (Device.model d)))
    >>= writeTlv (this_device (fun d => slice0 16 (Device.guid d)))
    >>= writeTlv (this_device (fun d => slice0 16 (Device.brand d))).

Definition enc_0x141 : Encoder := fun _ =>
  new_Writer
    >>= writeU16 (val 1)
    >>= writeTlv (this_device Device.sim)
    >>= writeU16 (val 2)
    >>= writeTlv (this_device Device.apn).

Definition enc_0x142 : Encoder := fun _ =>
  new_Writer
    >>= writeU16 (val 0)
    >>= writeTlv (this_apk (fun a => slice0 32 (Apk.id a))).

Definition enc_0x143 : Encoder := fun _ =>
  new_Writer >>= writeBytes (this_sig Sig.d2).

(** The composite tag calls the packer again for five other tags. *)
Definition enc_0x144 (packTlv : Packer) : Encoder := fun _ =>
  body <- new_Writer
    >>= writeU16 (val 5)
    >>= writeBytes (b <- packTlv 0x109 [] ;; ret (Buf b))
    >>= writeBytes (b <- packTlv 0x52d [] ;; ret (Buf b))
    >>= writeBytes (b <- packTlv 0x124 [] ;; ret (Buf b))
    >>= writeBytes (b <- packTlv 0x128 [] ;; ret (Buf b))
    >>= writeBytes (b <- packTlv 0x16e [] ;; ret (Buf b)) ;;
  new_Writer
    >>= writeBytes (plain <- read body ;;
                    key <- this_sig Sig.tgtgt ;;
                    c <- tea_encrypt plain key ;;
                    ret (Buf c)).

Definition enc_0x145 : Encoder := fun _ =>
  new_Writer >>= writeBytes (this_device Device.guid).

Definition enc_0x147 : Encoder := fun _ =>
  new_Writer
    >>= writeU32 (this_apk Apk.appid)
    >>= writeTlv (this_apk Apk.ver)
    >>= writeTlv (this_apk Apk.sign).

Definition enc_0x154 : Encoder := fun _ =>
  new_Writer >>= writeU32 (seq <- this_sig Sig.seq ;; ret (seq + 1)).

Definition enc_0x16a : Encoder := fun args =>
  let srm_token := arg 0 args in
  new_Writer
    >>= writeBytes (if truthy srm_token then lift (as_data srm_token)
                    else this_sig Sig.srm_token).

Definition enc_0x16e : Encoder := fun _ =>
  new_Writer >>= writeBytes (this_device Device.model).

Definition enc_0x174 : Encoder := fun _ =>
  new_Writer >>= writeBytes (this_sig Sig.t174).

Definition enc_0x177 : Encoder := fun _ =>
  new_Writer
    >>= writeU8 (val 0x01)
    >>= writeU32 (this_apk Apk.buildtime)
    >>= writeTlv (this_apk Apk.sdkver).

Definition enc_0x17a : Encoder := fun _ =>
  new_Writer >>= writeU32 (val 9).

Definition enc_0x17c : Encoder := fun args =>
  let code := arg 0 args in
  new_Writer >>= writeTlv (lift (as_data code)).

Definition enc_0x187 : Encoder := fun _ =>
  new_Writer >>= writeBytes (this_device (fun d => md5_of (Device.mac_address d))).

Definition enc_0x188 : Encoder := fun _ =>
  new_Writer >>= writeBytes (this_device (fun d => md5_of (Device.android_id d))).

Definition enc_0x191 : Encoder := fun _ =>
  new_Writer >>= writeU8 (val 0x82).

Definition enc_0x193 : Encoder := fun args =>
  let ticket := arg 0 args in
  new_Writer >>= writeBytes (lift (as_data ticket)).

Definition enc_0x194 : Encoder := fun _ =>
  new_Writer >>= writeBytes (this_device Device.imsi).

Definition enc_0x197 : Encoder := fun _ =>
  new_Writer >>= writeTlv (val (Buf (Buffer_alloc 1))).

Definition enc_0x198 : Encoder := fun _ =>
  new_Writer >>= writeTlv (val (Buf (Buffer_alloc 1))).

Definition enc_0x202 : Encoder := fun _ =>
  new_Writer
    >>= writeTlv (this_device (fun d => slice0 16 (Device.wifi_bssid d)))
    >>= writeTlv (this_device (fun d => slice0 32 (Device.wifi_ssid d))).

Definition enc_0x400 : Encoder := fun _ =>
  new_Writer
    >>= writeU16 (val 1)
    >>= writeU64 (gets uin)
    >>= writeBytes (this_device Device.guid)
    >>= writeBytes (randomBuf 16)
    >>= write32 (val 1)
    >>= write32 (val 16)
    >>= write32 unix_seconds
    >>= writeBytes (val (Buf (Buffer_alloc 0))).

Definition enc_0x401 : Encoder := fun _ =>
  new_Writer >>= writeBytes (randomBuf 16).

Definition domains : list jsstring :=
  Set_of
    [ lit "aq.qq.com";
      lit "connect.qq.com";
      lit "docs.qq.com";
      lit "game.qq.com";
      lit "gamecenter.qq.com";
      lit "haoma.qq.com";
      lit "id.qq.com";
      lit "kg.qq.com";
      lit "mail.qq.com";
      lit "mma.qq.com";
      lit "office.qq.com";
      lit "openmobile.qq.com";
      lit "qqweb.qq.com";
      lit "qun.qq.com";
      lit "qzone.qq.com";
      lit "ti.qq.com";
      lit "v.qq.com";
      lit "vip.qq.com";
      lit "y.qq.com" ].

Definition enc_0x511 : Encoder := fun _ =>
  stream <- new_Writer >>= writeU16 (val (Z.of_nat (length domains))) ;;
  for_of domains
    (fun v w => ret w >>= writeU8 (val 0x01) >>= writeTlv (val (Str v)))
    stream.

Definition enc_0x516 : Encoder := fun _ =>
  new_Writer >>= writeU32 (val 0).

Definition enc_0x521 : Encoder := fun args =>
  let type := arg 0 args in
  new_Writer
    >>= writeU32 (lift (as_number type))
    >>= writeU16 (val 0).

Definition enc_0x525 : Encoder := fun _ =>
  new_Writer
    >>= writeU16 (val 1)
    >>= writeU16 (val 0x536)
    >>= writeTlv (val (Buf [x02; x01; x00])).

Definition enc_0x523 : Encoder := fun _ =>
  new_Writer >>= writeTlv (val (Buf [x01; x00])).

Definition enc_0x52d : Encoder := fun _ =>
  d <- gets device ;;
  let buf := pb_encode
    [ (1, Device.bootloader d);
      (2, Device.proc_version d);
      (3, Version.codename (Device.version d));
      (4, Version.incremental (Device.version d));
      (5, Device.fingerprint d);
      (6, Device.boot_id d);
      (7, Device.android_id d);
      (8, Device.baseband d);
      (9, Version.incremental (Device.version d)) ] in
  new_Writer >>= writeBytes (val (Buf buf)).

Definition enc_0x542 : Encoder := fun _ =>
  new_Writer >>= writeBytes (val (Buf [x4a; x02; x60; x01])).

(** [v == k] for a number [k]: [undefined] equals no number, a string or
    a buffer is converted to a number first. *)
Definition loosely_is (v : JsVal) (k : Z) : bool :=
  match v with
  | undefined => false
  | Num z => z =? k
  | Data d => loosely_equals d k
  end.

(** [v === k] for a number [k]: only a number can be it. *)
Definition strictly_is (v : JsVal) (k : Z) : bool :=
  match v with
  | Num z => z =? k
  | _ => false
  end.

Definition enc_0x544 : Encoder := fun args =>
  let v := arg 0 args in
  let subCmd := arg 1 args in
  let signData := match arg 2 args with
                  | undefined => Data (Buf BUF0)
                  | given => given
                  end in
  if loosely_is v (-1) then new_Writer >>= writeBytes (lift (as_data signData))
  else
    let salt := Writer.empty in
    salt <- (if strictly_is v 2 then
               ret salt
                 >>= writeU32 (val 0)
                 >>= writeTlv (this_device Device.guid)
                 >>= writeTlv (this_apk (fun a => Buf (to_buffer (Apk.sdkver a))))
                 >>= writeU32 (lift (as_number subCmd))
                 >>= writeU32 (val 0)
             else
               ret salt
                 >>= writeU64 (gets uin)
                 >>= writeTlv (this_device Device.guid)
                 >>= writeTlv (this_apk (fun a => Buf (to_buffer (Apk.sdkver a))))
                 >>= writeU32 (lift (as_number subCmd))) ;;
    new_Writer
      >>= writeBytes (now <- Date_now ;;
                      data <- read salt ;;
                      signed <- sign_call now data ;;
                      ret (Buf signed)).

Definition enc_0x545 : Encoder := fun args =>
  let qImei := arg 0 args in
  new_Writer
    >>= writeBytes (if truthy qImei then d <- lift (as_data qImei) ;; ret (md5_of d)
                    else imei <- this_device Device.imei ;; ret (md5_of (Str imei))).

Definition enc_0x547 : Encoder := fun _ =>
  new_Writer >>= writeBytes (this_sig Sig.t547).

(** [tgt]: the SHA-256 digest of [dst]. *)
Definition pow_tgt (dst : bytes) : bytes := sha256 dst.

(** The header and the two length-prefixed fields written before the
    first [read()]. *)
Definition pow_writer (src tgt : bytes) : M Writer.t :=
  new_Writer
    >>= writeU8 (val 1)
    >>= writeU8 (val 2)
    >>= writeU8 (val 1)
    >>= writeU8 (val 2)
    >>= writeU16 (val 10)
    >>= writeBytes (val (Buf [x00; x00]))
    >>= writeTlv (val (Buf src))
    >>= writeTlv (val (Buf tgt)).

Definition enc_0x548 : Encoder := fun _ =>
  src <- pow_seed ;;
  dst <- match pow_dst src with
         | Some dst => ret dst
         | None => throw SyntaxError
         end ;;
  let tgt := pow_tgt dst in
  writer <- pow_writer src tgt ;;
  cpy <- read writer ;;
  t546 <- ret writer
    >>= writeBytes (val (Buf cpy))
    >>= writeTlv (val (Buf cpy))
    >>= read ;;
  t548 <- this_calcPoW t546 ;;
  new_Writer >>= writeBytes (val (Buf t548)).

(** ** The registry and the packer *)

(** The object literal [map], its entry for 0x144 bound to the packer it
    calls. *)
Definition registry (packTlv : Packer) : list (Z * Encoder) :=
  [ (0x01, enc_0x01); (0x08, enc_0x08); (0x16, enc_0x16); (0x18, enc_0x18);
    (0x1B, enc_0x1B); (0x1D, enc_0x1D); (0x1F, enc_0x1F); (0x33, enc_0x33);
    (0x35, enc_0x35); (0x100, enc_0x100); (0x104, enc_0x104);
    (0x106, enc_0x106); (0x107, enc_0x107); (0x108, enc_0x108);
    (0x109, enc_0x109); (0x10a, enc_0x10a); (0x112, enc_0x112);
    (0x116, enc_0x116); (0x124, enc_0x124); (0x128, enc_0x128);
    (0x141, enc_0x141); (0x142, enc_0x142); (0x143, enc_0x143);
    (0x144, enc_0x144 packTlv); (0x145, enc_0x145); (0x147, enc_0x147);
    (0x154, enc_0x154); (0x16a, enc_0x16a); (0x16e, enc_0x16e);
    (0x174, enc_0x174); (0x177, enc_0x177); (0x17a, enc_0x17a);
    (0x17c, enc_0x17c); (0x187, enc_0x187); (0x188, enc_0x188);
    (0x191, enc_0x191); (0x193, enc_0x193); (0x194, enc_0x194);
    (0x197, enc_0x197); (0x198, enc_0x198); (0x202, enc_0x202);
    (0x400, enc_0x400); (0x401, enc_0x401); (0x511, enc_0x511);
    (0x516, enc_0x516); (0x521, enc_0x521); (0x525, enc_0x525);
    (0x523, enc_0x523); (0x52d, enc_0x52d); (0x542, enc_0x542);
    (0x544, enc_0x544); (0x545, enc_0x545); (0x547, enc_0x547);
    (0x548, enc_0x548) ].

(** [m[tag]]: the entry, or [undefined]. *)
Fixpoint lookup (m : list (Z * Encoder)) (tag : Z) : option Encoder :=
  match m with
  | [] => None
  | (k, f) :: rest => if k =? tag then Some f else lookup rest tag
  end.

(** The body of [packTlv] over a given registry. *)
Definition packTlv_over (m : list (Z * Encoder)) : Packer := fun tag args =>
  match lookup m tag with
  | None => throw TypeError    (* [undefined.apply] *)
  | Some encoder =>
      t <- encoder args ;;
      lbuf <- lift (Buffer_writeUInt16BE (Writer.readableLength t)) ;;
      let t := Writer.unshift lbuf t in
      tbuf <- lift (Buffer_writeUInt16BE tag) ;;
      let t := Writer.unshift tbuf t in
      read t
  end.

(** [packTlv] and [map] refer to each other through tag 0x144; the
    recursion is unrolled to the given depth of nested calls, past which
    the call stack is taken to overflow (a RangeError). *)
Fixpoint packTlv_depth (depth : nat) : Packer :=
  match depth with
  | O => fun _ _ => throw RangeError
  | S d => packTlv_over (registry (packTlv_depth d))
  end.

(** Tag 0x144 nests one level and its sub-tags none, so two levels are
    all that is ever used (see [packTlv_unfold]). *)
Definition packTlv : Packer := packTlv_depth 2.

Definition map : list (Z * Encoder) := registry packTlv.

End Encoders.

(** ** Vocabulary of the statements *)

(** What [writeTlv(d)] appends: the two-byte length of [d], then [d]. *)
Definition tlv_field (d : BinaryLike) : bytes :=
  be_bytes 2 (Z.of_nat (length (to_buffer d))) ++ to_buffer d.

(** A packed block: the two-byte tag, the two-byte length of the payload,
    then the payload. *)
Definition tlv_block (tag : Z) (payload : bytes) : bytes :=
  be_bytes 2 tag ++ be_bytes 2 (Z.of_nat (length payload)) ++ payload.

(** A value whose [slice] units are its bytes: a buffer, or a string of
    ASCII characters only. *)
Definition byte_per_unit (d : BinaryLike) : Prop :=
  match d with
  | Buf _ => True
  | Str s => Forall (fun c => 0 <= c < 0x80) s
  end.

(** The head of the challenge of tag 0x548: version, type, hash type,
    status, max index and two reserved bytes. *)
Definition pow_header : bytes :=
  be_bytes 1 1 ++ be_bytes 1 2 ++ be_bytes 1 1 ++ be_bytes 1 2
    ++ be_bytes 2 10 ++ [x00; x00].

(** The assembled puzzle: header, length-prefixed seed, length-prefixed
    digest. *)
Definition pow_cpy (src tgt : bytes) : bytes :=
  pow_header ++ tlv_field (Buf src) ++ tlv_field (Buf tgt).

(** A computation that leaves client and world exactly as they were. *)
Definition keeps_state {A} (m : M A) : Prop :=
  forall s, snd (m s) = s.

(** A computation that hands back the client it was given, whatever its
    outcome. *)
Definition reads_only {A} (m : M A) : Prop :=
  forall s, this (snd (m s)) = this s.

(** Two states that differ at most in the entropy left. *)
Definition same_but_entropy (s s' : State) : Prop :=
  this s' = this s
  /\ now_ms (world s') = now_ms (world s)
  /\ journal (world s') = journal (world s).

(** ** A concrete client and world

    Stand-ins for the external functions and a sample session, used to run
    the encoders on concrete inputs. *)

Module Demo.

#[export] Instance externals : Externals := {|
  md5 := fun b => firstn 16 (b ++ repeat x00 16);
  sha256 := fun b => repeat (byte_of_Z (be_value b)) 32;
  sha256_length := fun b => repeat_length (byte_of_Z (be_value b)) 32;
  tea_filler := fun n => (2 + (14 - n mod 8) mod 8)%nat;
  tea_blocks := fun filler plain key => key ++ filler ++ plain;
  loosely_equals := fun d k =>
    if list_eq_dec Byte.byte_eq_dec (to_buffer d) (utf8 (String_of_number k))
    then true else false;
  pb_encode := flat_map (fun e => to_buffer (snd e));
  sign := fun _ salt => salt;
  calcPoW := fun data => rev data;
  BUF0 := []
|}.

Definition version : Version.t := {|
  Version.release := Str (lit "10");
  Version.codename := Str (lit "REL");
  Version.incremental := Str (lit "5891938")
|}.

Definition phone : Device.t := {|
  Device.guid := Buf (repeat x11 16);
  Device.ip_address := Str (lit "10.0.0.7");
  Device.imei := lit "861234567890123";
  Device.os_type := Str (lit "android");
  Device.version := version;
  Device.sim := Str (lit "T-Mobile");
  Device.apn := Str (lit "wifi");
  Device.model := Str (lit "ICQQ");
  Device.brand := Str (lit "Xiaomi");
  Device.mac_address := Str (lit "02:00:00:00:00:00");
  Device.android_id := Str (lit "a1b2c3d4e5f60718");
  Device.imsi := Buf (repeat x22 16);
  Device.wifi_bssid := Str (lit "02:00:00:00:00:00");
  Device.wifi_ssid := Str (lit "TP-LINK-1");
  Device.bootloader := Str (lit "U-boot");
  Device.proc_version := Str (lit "Linux version 4.19");
  Device.fingerprint := Str (lit "Xiaomi/icqq");
  Device.boot_id := Str (lit "0f0e0d0c");
  Device.baseband := Str (lit "")
|}.

Definition app : Apk.t := {|
  Apk.id := Str (lit "com.tencent.mobileqq");
  Apk.name := lit "A8.9.63";
  Apk.ver := Str (lit "8.9.63");
  Apk.sign := Buf (repeat x33 16);
  Apk.sdkver := Str (lit "6.0.0.2546");
  Apk.ssover := 20;
  Apk.appid := 16;
  Apk.subid := 537164840;
  Apk.bitmap := 150470524;
  Apk.main_sig_map := 16724722;
  Apk.sub_sig_map := 66560;
  Apk.buildtime := 1685069178
|}.

Definition session : Sig.t := {|
  Sig.seq := 41;
  Sig.tgtgt := repeat x44 16;
  Sig.ksid := undefined;
  Sig.t104 := Buf [];
  Sig.tgt := Buf [];
  Sig.d2 := Buf [];
  Sig.srm_token := Buf [];
  Sig.t174 := Buf [];
  Sig.t547 := Buf []
|}.

Definition client : BaseClient := {|
  uin := 123456789; device := phone; apk := app; sig := session
|}.

(** A proof-of-work seed: 0x01 followed by 127 zero bytes. *)
Definition seed : bytes := x01 :: repeat x00 127.

Definition state : State := {|
  this := client;
  world := {| entropy := seed ++ repeat x55 64;
              now_ms := 1700000000123;
              journal := [] |}
|}.

(** The same session on a phone whose model name is forty times the
    character U+4E2D. *)
Definition cjk_state : State := {|
  this := {| uin := 123456789;
             device := {|
               Device.guid := Device.guid phone;
               Device.ip_address := Device.ip_address phone;
               Device.imei := Device.imei phone;
               Device.os_type := Device.os_type phone;
               Device.version := version;
               Device.sim := Device.sim phone;
               Device.apn := Device.apn phone;
               Device.model := Str (repeat 0x4E2D 40);
               Device.brand := Device.brand phone;
               Device.mac_address := Device.mac_address phone;
               Device.android_id := Device.android_id phone;
               Device.imsi := Device.imsi phone;
               Device.wifi_bssid := Device.wifi_bssid phone;
               Device.wifi_ssid := Device.wifi_ssid phone;
               Device.bootloader := Device.bootloader phone;
               Device.proc_version := Device.proc_version phone;
               Device.fingerprint := Device.fingerprint phone;
               Device.boot_id := Device.boot_id phone;
               Device.baseband := Device.baseband phone
             |};
             apk := app; sig := session |};
  world := world state
|}.

End Demo.

(** ** Further vocabulary *)

(** A computation that uses nothing but entropy: client, clock and journal
    are as before. *)
Definition uses_only_entropy {A} (m : M A) : Prop :=
  forall s, same_but_entropy s (snd (m s)).

(** A computation whose outcome is a function of the client alone and that
    leaves client and world as they were. *)
Definition client_function {A} (m : M A) : Prop :=
  (forall s, snd (m s) = s)
  /\ (forall s s', this s = this s' -> fst (m s) = fst (m s')).

(** The state after [n] bytes of entropy were taken. *)
Definition drained (n : nat) (s : State) : State :=
  {| this := this s;
     world := {| entropy := skipn n (entropy (world s));
                 now_ms := now_ms (world s);
                 journal := journal (world s) |} |}.

(** The state after one more external call. *)
Definition called (c : Call) (s : State) : State :=
  {| this := this s;
     world := {| entropy := entropy (world s);
                 now_ms := now_ms (world s);
                 journal := journal (world s) ++ [c] |} |}.

(** The byte values the seed loop of tag 0x548 draws again. *)
Definition excluded (b : byte) : bool := Byte.eqb b x00 || Byte.eqb b xff.

(** The tags that draw random bytes (0x106 and 0x144 for the filler of the
    cipher), read the clock or call a collaborator. *)
Definition impure_tags : list Z :=
  [0x01; 0x106; 0x144; 0x400; 0x401; 0x544; 0x548].

(** The body of tag 0x106 before it is encrypted. *)
Definition password_body (s : State) (pass : bytes) : bytes :=
  let c := this s in
  be_bytes 2 4
    ++ firstn 4 (entropy (world s))
    ++ be_bytes 4 (Apk.ssover (apk c))
    ++ be_bytes 4 (Apk.appid (apk c))
    ++ be_bytes 4 0
    ++ be_bytes 8 (uin c)
    ++ be_bytes 4 (to_int32 (Z.quot (now_ms (world s)) 1000))
    ++ Buffer_alloc 4
    ++ be_bytes 1 1
    ++ pass
    ++ Sig.tgtgt (sig c)
    ++ be_bytes 4 0
    ++ be_bytes 1 1
    ++ to_buffer (Device.guid (device c))
    ++ be_bytes 4 (Apk.subid (apk c))
    ++ be_bytes 4 1
    ++ tlv_field (Str (String_of_number (uin c)))
    ++ be_bytes 2 0.

(** ** Further sample sessions *)

Module Sample.

Definition with_model (m : BinaryLike) (d : Device.t) : Device.t := {|
  Device.guid := Device.guid d;
  Device.ip_address := Device.ip_address d;
  Device.imei := Device.imei d;
  Device.os_type := Device.os_type d;
  Device.version := Device.version d;
  Device.sim := Device.sim d;
  Device.apn := Device.apn d;
  Device.model := m;
  Device.brand := Device.brand d;
  Device.mac_address := Device.mac_address d;
  Device.android_id := Device.android_id d;
  Device.imsi := Device.imsi d;
  Device.wifi_bssid := Device.wifi_bssid d;
  Device.wifi_ssid := Device.wifi_ssid d;
  Device.bootloader := Device.bootloader d;
  Device.proc_version := Device.proc_version d;
  Device.fingerprint := Device.fingerprint d;
  Device.boot_id := Device.boot_id d;
  Device.baseband := Device.baseband d
|}.

(** The sample session on a device whose model name is 65536 bytes long. *)
Definition long_model_state : State := {|
  this := {| uin := uin Demo.client;
             device := with_model (Buf (repeat x41 (Z.to_nat 65536))) Demo.phone;
             apk := Demo.app;
             sig := Demo.session |};
  world := world Demo.state
|}.

(** The sample session with an account number that needs 33 bits. *)
Definition wide_uin_state : State := {|
  this := {| uin := 2 ^ 32 + 5;
             device := Demo.phone; apk := Demo.app; sig := Demo.session |};
  world := world Demo.state
|}.

(** A world whose first draw starts with 0x00 and whose next three bytes are
    0xFF, 0x00 and 0x07. *)
Definition reroll_state : State := {|
  this := Demo.client;
  world := {| entropy := (x00 :: repeat x09 127) ++ [xff; x00; x07; x08];
              now_ms := now_ms (world Demo.state);
              journal := [] |}
|}.

End Sample.

(** * Properties *)

(** ** Bytes and big-endian integers *)

Lemma byte_to_Z_range (b : byte) : 0 <= byte_to_Z b < 256.
Proof.
  unfold byte_to_Z. pose proof (Byte.to_N_bounded b). lia.
Qed.

Lemma byte_to_of_Z (z : Z) : byte_to_Z (byte_of_Z z) = z mod 256.
Proof.
  unfold byte_to_Z, byte_of_Z.
  pose proof (Z.mod_pos_bound z 256 ltac:(lia)) as Hr.
  destruct (Byte.of_N (Z.to_N (z mod 256))) as [b|] eqn:E.
  - apply Byte.to_of_N in E. rewrite E. lia.
  - apply Byte.of_N_None_iff in E. lia.
Qed.

Lemma byte_of_to_Z (b : byte) : byte_of_Z (byte_to_Z b) = b.
Proof.
  unfold byte_of_Z. pose proof (byte_to_Z_range b) as Hr.
  rewrite Z.mod_small by lia. unfold byte_to_Z.
  rewrite N2Z.id, Byte.of_to_N. reflexivity.
Qed.

Lemma be_value_snoc (bs : bytes) (b : byte) :
  be_value (bs ++ [b]) = be_value bs * 256 + byte_to_Z b.
Proof.
  unfold be_value. rewrite fold_left_app. reflexivity.
Qed.

Lemma be_value_range (bs : bytes) : 0 <= be_value bs < 256 ^ Z.of_nat (length bs).
Proof.
  induction bs as [|b bs IH] using rev_ind.
  - cbn. lia.
  - rewrite be_value_snoc, length_app. cbn [length].
    replace (Z.of_nat (length bs + 1)) with (Z.of_nat (length bs) + 1) by lia.
    rewrite Z.pow_add_r by lia. pose proof (byte_to_Z_range b). lia.
Qed.

Lemma be_value_app (a b : bytes) :
  be_value (a ++ b) = be_value a * 256 ^ Z.of_nat (length b) + be_value b.
Proof.
  induction b as [|x b IH] using rev_ind.
  - rewrite app_nil_r. cbn. lia.
  - rewrite app_assoc, !be_value_snoc, IH, length_app. cbn [length].
    replace (Z.of_nat (length b + 1)) with (Z.of_nat (length b) + 1) by lia.
    rewrite Z.pow_add_r by lia. lia.
Qed.

Lemma be_value_cons (b : byte) (bs : bytes) :
  be_value (b :: bs) = byte_to_Z b * 256 ^ Z.of_nat (length bs) + be_value bs.
Proof.
  change (b :: bs) with ([b] ++ bs). rewrite be_value_app. cbn. lia.
Qed.

Lemma length_be_bytes (n : nat) (v : Z) : length (be_bytes n v) = n.
Proof.
  induction n; cbn; congruence.
Qed.

Lemma be_value_be_bytes (n : nat) (v : Z) :
  be_value (be_bytes n v) = v mod 256 ^ Z.of_nat n.
Proof.
  induction n as [|n IH].
  - cbn. rewrite Z.mod_1_r. reflexivity.
  - cbn [be_bytes]. rewrite be_value_cons, length_be_bytes, IH, byte_to_of_Z.
    replace (Z.of_nat (S n)) with (Z.of_nat n + 1) by lia.
    rewrite Z.pow_add_r by lia.
    assert (0 < 256 ^ Z.of_nat n) by (apply Z.pow_pos_nonneg; lia).
    change (256 ^ 1) with 256.
    rewrite Z.rem_mul_r by lia. lia.
Qed.

Lemma byte_of_Z_add_mul (a c : Z) : byte_of_Z (a + c * 256) = byte_of_Z a.
Proof.
  unfold byte_of_Z. rewrite Z.mod_add by lia. reflexivity.
Qed.

Lemma be_bytes_add_high (k n : nat) (v h : Z) :
  (k <= n)%nat -> be_bytes k (v + h * 256 ^ Z.of_nat n) = be_bytes k v.
Proof.
  induction k as [|k IH]; intros Hk.
  - reflexivity.
  - cbn [be_bytes]. rewrite IH by lia. f_equal.
    assert (0 < 256 ^ Z.of_nat k) by (apply Z.pow_pos_nonneg; lia).
    replace (Z.of_nat n) with (Z.of_nat (n - S k) + 1 + Z.of_nat k) by lia.
    rewrite !Z.pow_add_r by lia. change (256 ^ 1) with 256.
    rewrite !Z.mul_assoc, Z.div_add by lia.
    apply byte_of_Z_add_mul.
Qed.

Lemma be_bytes_be_value (bs : bytes) : be_bytes (length bs) (be_value bs) = bs.
Proof.
  induction bs as [|b bs IH].
  - reflexivity.
  - cbn [length be_bytes]. pose proof (be_value_range bs) as Hr.
    pose proof (byte_to_Z_range b) as Hb.
    assert (0 < 256 ^ Z.of_nat (length bs)) by (apply Z.pow_pos_nonneg; lia).
    rewrite be_value_cons. f_equal.
    + rewrite Z.div_add_l by lia. rewrite Z.div_small by lia.
      rewrite Z.add_0_r. apply byte_of_to_Z.
    + rewrite Z.add_comm, be_bytes_add_high by lia. exact IH.
Qed.

(** A buffer of [n] bytes is determined by the integer it spells. *)
Lemma be_bytes_unique (n : nat) (bs : bytes) (v : Z) :
  length bs = n -> be_value bs = v -> bs = be_bytes n v.
Proof.
  intros <- <-. symmetry. apply be_bytes_be_value.
Qed.

(** ** Running encoder bodies *)

Lemma bind_Return {A B} (m : M A) (k : A -> M B) s a s1 :
  m s = (Return a, s1) -> bind m k s = k a s1.
Proof.
  unfold bind. intros ->. reflexivity.
Qed.

Lemma bind_Throw {A B} (m : M A) (k : A -> M B) s e s1 :
  m s = (Throw e, s1) -> bind m k s = (Throw e, s1).
Proof.
  unfold bind. intros ->. reflexivity.
Qed.

(** One successful method call at the end of a chain. *)
Lemma step_Return {A} (m : M Writer.t) (op : A -> Writer.t -> outcome Writer.t)
  (a : M A) s w s1 x s2 w' :
  m s = (Return w, s1) ->
  a s1 = (Return x, s2) ->
  op x w = Return w' ->
  (m >>= call op a) s = (Return w', s2).
Proof.
  intros Hm Ha Hop. rewrite (bind_Return _ _ _ _ _ Hm).
  unfold call. rewrite (bind_Return _ _ _ _ _ Ha).
  unfold lift. rewrite Hop. reflexivity.
Qed.

Lemma in_range_true lo hi v : lo <= v <= hi -> Writer.in_range lo hi v = true.
Proof.
  unfold Writer.in_range. intros. apply andb_true_intro. split; apply Z.leb_le; lia.
Qed.

Lemma in_range_false lo hi v : v < lo \/ hi < v -> Writer.in_range lo hi v = false.
Proof.
  unfold Writer.in_range. intros [Hv|Hv].
  - apply andb_false_intro1. apply Z.leb_gt. lia.
  - apply andb_false_intro2. apply Z.leb_gt. lia.
Qed.

Lemma writeU8_Return v w :
  0 <= v <= 0xFF -> Writer.writeU8 v w = Return (Writer.push (be_bytes 1 v) w).
Proof.
  intros Hv. unfold Writer.writeU8. rewrite in_range_true by exact Hv. reflexivity.
Qed.

Lemma writeU16_Return v w :
  0 <= v <= 0xFFFF -> Writer.writeU16 v w = Return (Writer.push (be_bytes 2 v) w).
Proof.
  intros Hv. unfold Writer.writeU16. rewrite in_range_true by exact Hv. reflexivity.
Qed.

Lemma write32_Return v w :
  - 2 ^ 31 <= v <= 2 ^ 31 - 1 ->
  Writer.write32 v w = Return (Writer.push (be_bytes 4 v) w).
Proof.
  intros Hv. unfold Writer.write32. rewrite in_range_true by exact Hv. reflexivity.
Qed.

Lemma writeU32_Return v w :
  0 <= v <= 0xFFFFFFFF -> Writer.writeU32 v w = Return (Writer.push (be_bytes 4 v) w).
Proof.
  intros Hv. unfold Writer.writeU32. rewrite in_range_true by exact Hv. reflexivity.
Qed.

Lemma writeTlv_Return d w :
  Z.of_nat (length (to_buffer d)) <= 0xFFFF ->
  Writer.writeTlv d w =
  Return (Writer.push (be_bytes 2 (Z.of_nat (length (to_buffer d))) ++ to_buffer d) w).
Proof.
  intros Hd. unfold Writer.writeTlv. cbv zeta.
  rewrite in_range_true by lia. reflexivity.
Qed.

(** [chain] runs a chain of method calls whose every call succeeds; the
    side conditions on integer ranges are left to [lia]. *)
Ltac writer_op :=
  cbv beta;
  first
    [ apply writeU8_Return; lia
    | apply writeU16_Return; lia
    | apply write32_Return; lia
    | apply writeU32_Return; lia
    | apply writeTlv_Return; cbn; lia
    | reflexivity ].

Ltac read_arg :=
  cbv beta delta [this_device this_apk this_sig gets val ret lift bind];
  cbv beta iota;
  reflexivity.

Ltac chain :=
  lazymatch goal with
  | |- bind _ (call _ _) _ = _ =>
      eapply step_Return; [ chain | read_arg | writer_op ]
  | |- _ => reflexivity
  end.

(** ** Encoders only read the client *)

Lemma reads_only_ret {A} (a : A) : reads_only (ret a).
Proof. intro s. reflexivity. Qed.

Lemma reads_only_lift {A} (o : outcome A) : reads_only (lift o).
Proof. intro s. reflexivity. Qed.

Lemma reads_only_throw {A} (e : JsError) : reads_only (@throw A e).
Proof. intro s. reflexivity. Qed.

Lemma reads_only_gets {A} (f : BaseClient -> A) : reads_only (gets f).
Proof. intro s. reflexivity. Qed.

Lemma reads_only_Date_now : reads_only Date_now.
Proof. intro s. reflexivity. Qed.

Lemma reads_only_record c : reads_only (record c).
Proof. intro s. reflexivity. Qed.

Lemma reads_only_randomBytes n : reads_only (crypto_randomBytes n).
Proof.
  intro s. unfold crypto_randomBytes. cbv zeta.
  destruct (n <=? length (entropy (world s)))%nat; reflexivity.
Qed.

Lemma reads_only_bind {A B} (m : M A) (k : A -> M B) :
  reads_only m -> (forall a, reads_only (k a)) -> reads_only (bind m k).
Proof.
  intros Hm Hk s. unfold bind. specialize (Hm s).
  destruct (m s) as [[a|e|] s1]; cbn in *.
  - rewrite (Hk a s1). exact Hm.
  - exact Hm.
  - exact Hm.
Qed.

Lemma reads_only_call {A} (op : A -> Writer.t -> outcome Writer.t) (a : M A) w :
  reads_only a -> reads_only (call op a w).
Proof.
  intros Ha. unfold call. apply reads_only_bind; [exact Ha|].
  intro x. apply reads_only_lift.
Qed.

Lemma reads_only_for_of {A} (xs : list A) body w :
  (forall x w', reads_only (body x w')) -> reads_only (for_of xs body w).
Proof.
  intros Hb. revert w. induction xs as [|x xs IH]; intro w; cbn [for_of].
  - apply reads_only_ret.
  - apply reads_only_bind; [apply Hb | exact IH].
Qed.

Lemma reads_only_reroll turns src : reads_only (reroll turns src).
Proof.
  revert src. induction turns as [|k IH]; intro src; cbn [reroll];
    destruct (first_byte_is src x00 || first_byte_is src xff).
  - apply reads_only_lift.
  - apply reads_only_ret.
  - apply reads_only_bind; [apply reads_only_randomBytes | intro r; apply IH].
  - apply reads_only_ret.
Qed.

Lemma reads_only_reroll_first_byte src : reads_only (reroll_first_byte src).
Proof.
  intro s. unfold reroll_first_byte. apply reads_only_reroll.
Qed.

Lemma reads_only_pow_seed : reads_only pow_seed.
Proof.
  unfold pow_seed. apply reads_only_bind.
  - apply reads_only_randomBytes.
  - apply reads_only_reroll_first_byte.
Qed.

Create HintDb frame discriminated.

#[export] Hint Resolve reads_only_ret reads_only_lift reads_only_throw
  reads_only_gets reads_only_Date_now reads_only_record
  reads_only_randomBytes reads_only_reroll_first_byte
  reads_only_pow_seed
  : frame.

(** [frame] decomposes an encoder body along its binds, method calls,
    conditionals and matches. *)
Ltac frame :=
  repeat first
    [ progress intros
    | apply reads_only_bind
    | apply reads_only_call
    | apply reads_only_for_of
    | solve [ auto with frame ]
    | match goal with
      | |- reads_only (if ?b then _ else _) => destruct b
      | |- reads_only (match ?x with _ => _ end) => destruct x
      end
    | progress cbv beta zeta delta
        [ new_Writer val writeU8 writeU16 write32 writeU32 writeU64
          writeBytes writeTlv read randomBuf unix_seconds
          this_device this_apk this_sig ] ].

Section Frame.
Context `{Externals}.

Lemma reads_only_sign_call ts salt : reads_only (sign_call ts salt).
Proof. unfold sign_call. frame. Qed.

Lemma reads_only_this_calcPoW data : reads_only (this_calcPoW data).
Proof. unfold this_calcPoW. frame. Qed.

Lemma reads_only_tea_encrypt data key : reads_only (tea_encrypt data key).
Proof. unfold tea_encrypt. frame. Qed.

Lemma reads_only_pow_writer src tgt : reads_only (pow_writer src tgt).
Proof. unfold pow_writer. frame. Qed.

Hint Resolve reads_only_sign_call reads_only_this_calcPoW
  reads_only_tea_encrypt reads_only_pow_writer : frame.

(** Every entry of the registry, given a packer that only reads. *)
Lemma registry_reads_only (p : Packer) :
  (forall tag args, reads_only (p tag args)) ->
  Forall (fun entry => forall args, reads_only (snd entry args)) (registry p).
Proof.
  intros Hp. unfold registry.
  repeat (apply Forall_cons; [cbn [snd]; intro args|]); try apply Forall_nil.
  all: match goal with |- reads_only (?enc _) => try unfold enc end.
  all: try unfold enc_0x544.
  all: solve [frame].
Qed.

End Frame.

(** ** Encoders that touch nothing *)

Lemma keeps_state_ret {A} (a : A) : keeps_state (ret a).
Proof. intro s. reflexivity. Qed.

Lemma keeps_state_lift {A} (o : outcome A) : keeps_state (lift o).
Proof. intro s. reflexivity. Qed.

Lemma keeps_state_gets {A} (f : BaseClient -> A) : keeps_state (gets f).
Proof. intro s. reflexivity. Qed.

Lemma keeps_state_bind {A B} (m : M A) (k : A -> M B) :
  keeps_state m -> (forall a, keeps_state (k a)) -> keeps_state (bind m k).
Proof.
  intros Hm Hk s. unfold bind. specialize (Hm s).
  destruct (m s) as [[a|e|] s1]; cbn in Hm; subst s1.
  - apply Hk.
  - reflexivity.
  - reflexivity.
Qed.

Lemma keeps_state_call {A} (op : A -> Writer.t -> outcome Writer.t) (a : M A) w :
  keeps_state a -> keeps_state (call op a w).
Proof.
  intros Ha. unfold call. apply keeps_state_bind; [exact Ha|].
  intro x. apply keeps_state_lift.
Qed.

(** [still] decomposes an encoder body that draws no random bytes, reads
    no clock and calls no collaborator. *)
Ltac still :=
  repeat first
    [ progress intros
    | apply keeps_state_bind
    | apply keeps_state_call
    | apply keeps_state_ret
    | apply keeps_state_lift
    | apply keeps_state_gets
    | progress cbv beta delta
        [ new_Writer val writeU8 writeU16 write32 writeU32 writeU64
          writeBytes writeTlv read this_device this_apk this_sig throw ] ].

(** Reading a writer gives what it holds. *)
Lemma read_Return (w : Writer.t) s : read w s = (Return (Writer.readable w), s).
Proof. reflexivity. Qed.

(** ** Drawing random bytes *)

Lemma drained_O s : drained 0 s = s.
Proof. destruct s as [c [e n j]]. reflexivity. Qed.

Lemma drained_drained (a b : nat) s : drained b (drained a s) = drained (a + b) s.
Proof.
  unfold drained. cbn [this world entropy now_ms journal].
  rewrite skipn_skipn, (Nat.add_comm b a). reflexivity.
Qed.

Lemma randomBytes_drained (n : nat) s :
  (n <= length (entropy (world s)))%nat ->
  crypto_randomBytes n s = (Return (firstn n (entropy (world s))), drained n s).
Proof.
  intros Hn. unfold crypto_randomBytes. cbv zeta.
  rewrite (proj2 (Nat.leb_le _ _) Hn). reflexivity.
Qed.

Lemma randomBuf_drained (n : nat) s :
  (n <= length (entropy (world s)))%nat ->
  randomBuf n s = (Return (Buf (firstn n (entropy (world s)))), drained n s).
Proof.
  intros Hn. unfold randomBuf.
  rewrite (bind_Return _ _ _ _ _ (randomBytes_drained n s Hn)). reflexivity.
Qed.

Section Cipher.
Context `{Externals}.

(** The cipher draws its filler and nothing else. *)
Lemma tea_encrypt_Return (data key : bytes) s :
  (tea_filler (length data) <= length (entropy (world s)))%nat ->
  tea_encrypt data key s =
  (Return (tea_blocks (firstn (tea_filler (length data)) (entropy (world s)))
                      data key),
   drained (tea_filler (length data)) s).
Proof.
  intros Hn. unfold tea_encrypt.
  rewrite (bind_Return _ _ _ _ _ (randomBytes_drained _ s Hn)). reflexivity.
Qed.

End Cipher.

(** ** The packer *)

Section Packer.
Context `{Externals}.

Lemma lookup_In (m : list (Z * Encoder)) tag f :
  lookup m tag = Some f -> In (tag, f) m.
Proof.
  induction m as [|[k g] m IH]; cbn [lookup]; [discriminate|].
  destruct (Z.eqb_spec k tag) as [->|_].
  - intros [= ->]. left. reflexivity.
  - intros Hm. right. exact (IH Hm).
Qed.

(** Every tag of the registry fits the two-byte tag field. *)
Lemma lookup_registry_range (p : Packer) tag f :
  lookup (registry p) tag = Some f -> 0x01 <= tag <= 0x548.
Proof.
  unfold registry. cbn [lookup].
  repeat match goal with
         | |- context [?k =? tag] => destruct (Z.eqb_spec k tag); [lia|]
         end.
  discriminate.
Qed.

(** Only the entry of tag 0x144 depends on the packer it is bound to. *)
Lemma lookup_registry_other (p q : Packer) tag :
  tag <> 0x144 -> lookup (registry p) tag = lookup (registry q) tag.
Proof.
  intros Htag. unfold registry. cbn [lookup].
  replace (0x144 =? tag) with false by (symmetry; apply Z.eqb_neq; lia).
  reflexivity.
Qed.

Lemma packTlv_over_reads_only (m : list (Z * Encoder)) :
  Forall (fun entry => forall args, reads_only (snd entry args)) m ->
  forall tag args, reads_only (packTlv_over m tag args).
Proof.
  intros Hm tag args. unfold packTlv_over.
  destruct (lookup m tag) as [f|] eqn:Hf; [|apply reads_only_throw].
  apply lookup_In in Hf. rewrite Forall_forall in Hm. specialize (Hm _ Hf).
  cbn [snd] in Hm. frame; apply Hm.
Qed.

Lemma packTlv_depth_reads_only depth tag args :
  reads_only (packTlv_depth depth tag args).
Proof.
  revert tag args. induction depth as [|d IH]; intros tag args; cbn [packTlv_depth].
  - apply reads_only_throw.
  - apply packTlv_over_reads_only, registry_reads_only, IH.
Qed.

Lemma packTlv_over_other (p q : Packer) tag args s :
  tag <> 0x144 ->
  packTlv_over (registry p) tag args s = packTlv_over (registry q) tag args s.
Proof.
  intros Htag. unfold packTlv_over.
  rewrite (lookup_registry_other p q tag Htag). reflexivity.
Qed.

Lemma lookup_registry_0x144 (p : Packer) :
  lookup (registry p) 0x144 = Some (enc_0x144 p).
Proof.
  unfold registry. cbn [lookup Z.eqb Pos.eqb]. reflexivity.
Qed.

Lemma bind_ext {A B} (m1 m2 : M A) (k1 k2 : A -> M B) s :
  m1 s = m2 s -> (forall a s1, k1 a s1 = k2 a s1) -> bind m1 k1 s = bind m2 k2 s.
Proof.
  intros Hm Hk. unfold bind. rewrite Hm.
  destruct (m2 s) as [[a|e|] s1]; [apply Hk | reflexivity | reflexivity].
Qed.

Lemma call_ext {A} (op : A -> Writer.t -> outcome Writer.t) (a1 a2 : M A) w s :
  (forall s1, a1 s1 = a2 s1) -> call op a1 w s = call op a2 w s.
Proof.
  intros Ha. unfold call. apply bind_ext; [apply Ha | reflexivity].
Qed.

(** Tag 0x144 reaches the packer only at its five sub-tags. *)
Lemma enc_0x144_ext (p q : Packer) args s :
  (forall tag s1, tag <> 0x144 -> p tag [] s1 = q tag [] s1) ->
  enc_0x144 p args s = enc_0x144 q args s.
Proof.
  intros Hpq. unfold enc_0x144.
  apply bind_ext; [|reflexivity].
  repeat (apply bind_ext;
          [|intros w s1; apply call_ext; intro s2;
            apply bind_ext; [apply Hpq; lia | reflexivity]]).
  reflexivity.
Qed.

(** The unrolled packer satisfies the recursive equation of the source:
    [packTlv] looks its encoder up in [map], whose entry for 0x144 calls
    [packTlv] itself. *)
Lemma packTlv_unfold tag args s :
  packTlv tag args s = packTlv_over map tag args s.
Proof.
  unfold packTlv, map. cbn [packTlv_depth].
  destruct (Z.eq_dec tag 0x144) as [->|Hne].
  - unfold packTlv_over. rewrite !lookup_registry_0x144.
    apply bind_ext; [|reflexivity].
    apply enc_0x144_ext. intros tag s1 Htag.
    apply packTlv_over_other. exact Htag.
  - apply packTlv_over_other. exact Hne.
Qed.

Lemma packTlv_over_Return (m : list (Z * Encoder)) tag encoder args s t s' :
  lookup m tag = Some encoder ->
  encoder args s = (Return t, s') ->
  0 <= tag <= 0xFFFF ->
  packTlv_over m tag args s =
  (if Writer.readableLength t <=? 0xFFFF
   then Return (be_bytes 2 tag ++ be_bytes 2 (Writer.readableLength t)
                  ++ Writer.readable t)
   else Throw RangeError, s').
Proof.
  intros Hm Henc Htag. unfold packTlv_over. rewrite Hm.
  rewrite (bind_Return _ _ _ _ _ Henc).
  unfold bind at 1, lift at 1, Buffer_writeUInt16BE at 1.
  assert ((0 <=? Writer.readableLength t) = true) as ->
    by (apply Z.leb_le; unfold Writer.readableLength; lia).
  cbn [andb].
  destruct (Writer.readableLength t <=? 0xFFFF); [|reflexivity].
  unfold bind, lift, Buffer_writeUInt16BE.
  replace ((0 <=? tag) && (tag <=? 0xFFFF)) with true
    by (symmetry; apply andb_true_intro; split; apply Z.leb_le; lia).
  reflexivity.
Qed.

Lemma packTlv_over_failed (m : list (Z * Encoder)) tag encoder args s s' :
  lookup m tag = Some encoder ->
  (exists e, encoder args s = (Throw e, s')) \/ encoder args s = (Starved, s') ->
  forall b s'', packTlv_over m tag args s <> (Return b, s'').
Proof.
  intros Hm Henc b s''. unfold packTlv_over. rewrite Hm. unfold bind at 1.
  destruct Henc as [[e ->]| ->]; discriminate.
Qed.

End Packer.

(** ** UTF-8 and slices *)

Lemma utf8_of_code_point_length (cp : Z) :
  (1 <= length (utf8_of_code_point cp) <= 4)%nat.
Proof.
  unfold utf8_of_code_point.
  destruct (cp <? 0x80); [cbn; lia|].
  destruct (cp <? 0x800); [cbn; lia|].
  destruct (cp <? 0x10000); cbn; lia.
Qed.

(** A code unit yields at most four bytes (three, when it is a valid one). *)
Lemma utf8_length_le (s : jsstring) : (length (utf8 s) <= 4 * length s)%nat.
Proof.
  assert (forall n s, (length s <= n)%nat -> (length (utf8 s) <= 4 * length s)%nat)
    as Hall.
  { induction n as [|n IH]; intros [|c rest] Hs; cbn [length] in *;
      try lia; try (cbn [utf8 length]; lia).
    cbn [utf8].
    pose proof (utf8_of_code_point_length c) as Hc.
    pose proof (utf8_of_code_point_length 0xFFFD) as Hr.
    pose proof (IH rest ltac:(lia)) as Hrest.
    destruct (is_high_surrogate c).
    - destruct rest as [|d rest'].
      + cbn [length] in *. lia.
      + destruct (is_low_surrogate d).
        * pose proof (utf8_of_code_point_length
                        (0x10000 + Z.shiftl (c - 0xD800) 10 + (d - 0xDC00))).
          pose proof (IH rest' ltac:(cbn [length] in Hs; lia)).
          rewrite length_app. cbn [length] in *. lia.
        * rewrite length_app. lia.
    - destruct (is_low_surrogate c); rewrite length_app; lia. }
  apply (Hall (length s)). lia.
Qed.

Lemma slice0_length_le (n : nat) (d : BinaryLike) :
  (length (to_buffer (slice0 n d)) <= 4 * n)%nat.
Proof.
  destruct d as [str|b]; cbn [slice0 to_buffer].
  - pose proof (utf8_length_le (firstn n str)) as Hu.
    pose proof (firstn_le_length n str). lia.
  - pose proof (firstn_le_length n b). lia.
Qed.

(** An ASCII string is encoded one byte per code unit. *)
Lemma utf8_ascii (s : jsstring) :
  Forall (fun c => 0 <= c < 0x80) s -> utf8 s = List.map byte_of_Z s.
Proof.
  induction 1 as [|c rest Hc _ IH]; [reflexivity|].
  cbn [utf8 List.map].
  assert (is_high_surrogate c = false) as ->
    by (unfold is_high_surrogate; apply andb_false_intro1, Z.leb_gt; lia).
  assert (is_low_surrogate c = false) as ->
    by (unfold is_low_surrogate; apply andb_false_intro1, Z.leb_gt; lia).
  unfold utf8_of_code_point.
  assert ((c <? 0x80) = true) as -> by (apply Z.ltb_lt; lia).
  cbn [app]. rewrite IH. reflexivity.
Qed.

(** Slicing a value whose units are bytes keeps its first bytes. *)
Lemma slice0_byte_per_unit (n : nat) (d : BinaryLike) :
  byte_per_unit d -> to_buffer (slice0 n d) = firstn n (to_buffer d).
Proof.
  destruct d as [str|b]; cbn [slice0 to_buffer byte_per_unit]; [|reflexivity].
  intros Hs. rewrite (utf8_ascii str Hs).
  rewrite (utf8_ascii (firstn n str)).
  - symmetry. apply firstn_map.
  - rewrite Forall_forall in *. intros c Hc. apply Hs.
    rewrite <- (firstn_skipn n str). apply in_or_app. left. exact Hc.
Qed.

Lemma writeTlv_slice0 (n : nat) (d : BinaryLike) w :
  (n <= 32)%nat ->
  Writer.writeTlv (slice0 n d) w = Return (Writer.push (tlv_field (slice0 n d)) w).
Proof.
  intros Hn. apply writeTlv_Return.
  pose proof (slice0_length_le n d). lia.
Qed.

(** ** Hexadecimal text and the proof-of-work target *)

Lemma hex_value_hex_digit (d : Z) : 0 <= d < 16 -> hex_value (hex_digit d) = Some d.
Proof.
  intros Hd. unfold hex_digit, hex_value.
  destruct (Z.ltb_spec d 10) as [Hlt|Hge].
  - assert ((48 <=? 48 + d) && (48 + d <=? 57) = true) as ->
      by (apply andb_true_intro; split; apply Z.leb_le; lia).
    f_equal. lia.
  - assert ((48 <=? 87 + d) && (87 + d <=? 57) = false) as ->
      by (apply andb_false_intro2, Z.leb_gt; lia).
    assert ((97 <=? 87 + d) && (87 + d <=? 102) = true) as ->
      by (apply andb_true_intro; split; apply Z.leb_le; lia).
    f_equal. lia.
Qed.

Lemma hex_value_range (c d : Z) : hex_value c = Some d -> 0 <= d < 16.
Proof.
  unfold hex_value.
  destruct ((48 <=? c) && (c <=? 57)) eqn:E1.
  { apply andb_prop in E1 as [?%Z.leb_le ?%Z.leb_le]. intros [= <-]. lia. }
  destruct ((97 <=? c) && (c <=? 102)) eqn:E2.
  { apply andb_prop in E2 as [?%Z.leb_le ?%Z.leb_le]. intros [= <-]. lia. }
  destruct ((65 <=? c) && (c <=? 70)) eqn:E3.
  { apply andb_prop in E3 as [?%Z.leb_le ?%Z.leb_le]. intros [= <-]. lia. }
  discriminate.
Qed.

Lemma hex_fold_app (acc : Z) (s t : jsstring) :
  hex_fold acc (s ++ t) =
  match hex_fold acc s with
  | Some a => hex_fold a t
  | None => None
  end.
Proof.
  revert acc. induction s as [|c s IH]; intro acc; cbn [app hex_fold].
  - reflexivity.
  - destruct (hex_value c); [apply IH | reflexivity].
Qed.

(** [BigInt("0x" + buf.toString("hex"))] is the integer the buffer spells. *)
Lemma hex_fold_toString_hex (bs : bytes) (acc : Z) :
  hex_fold acc (Buffer_toString_hex bs)
  = Some (fold_left (fun a b => a * 256 + byte_to_Z b) bs acc).
Proof.
  revert acc. induction bs as [|b bs IH]; intro acc.
  - reflexivity.
  - unfold Buffer_toString_hex. cbn [flat_map app hex_fold fold_left].
    pose proof (byte_to_Z_range b) as Hb.
    rewrite hex_value_hex_digit
      by (split; [apply Z.div_pos; lia | apply Z.div_lt_upper_bound; lia]).
    rewrite hex_value_hex_digit by (apply Z.mod_pos_bound; lia).
    fold (Buffer_toString_hex bs). rewrite IH. do 2 f_equal.
    pose proof (Z.div_mod (byte_to_Z b) 16 ltac:(lia)). lia.
Qed.

Lemma BigInt_of_toString_hex (bs : bytes) :
  bs <> [] -> BigInt_of_hex (Buffer_toString_hex bs) = Some (be_value bs).
Proof.
  intros Hbs. destruct bs as [|b bs]; [contradiction|].
  unfold be_value. rewrite <- hex_fold_toString_hex. reflexivity.
Qed.

(** [n.toString(16)]: digits that spell [n], as few as [n] needs. *)
Lemma hex_fold_hex_digits (fuel : nat) (n acc : Z) :
  0 <= n < 16 ^ Z.of_nat fuel ->
  hex_fold acc (hex_digits fuel n)
  = Some (acc * 16 ^ Z.of_nat (length (hex_digits fuel n)) + n).
Proof.
  revert n acc. induction fuel as [|f IH]; intros n acc Hn.
  - cbn in Hn. cbn. f_equal; lia.
  - cbn [hex_digits]. destruct (Z.ltb_spec n 16) as [Hlt|Hge].
    + cbn [hex_fold length]. rewrite hex_value_hex_digit by lia.
      f_equal; try (cbn; lia).
    + rewrite hex_fold_app, IH.
      * cbn [hex_fold]. rewrite hex_value_hex_digit by (apply Z.mod_pos_bound; lia).
        f_equal. rewrite length_app. cbn [length].
        replace (Z.of_nat (length (hex_digits f (n / 16)) + 1))
          with (Z.of_nat (length (hex_digits f (n / 16))) + 1) by lia.
        rewrite Z.pow_add_r by lia. change (16 ^ 1) with 16.
        pose proof (Z.div_mod n 16 ltac:(lia)). lia.
      * replace (Z.of_nat (S f)) with (Z.of_nat f + 1) in Hn by lia.
        rewrite Z.pow_add_r in Hn by lia. change (16 ^ 1) with 16 in Hn.
        split; [apply Z.div_pos; lia | apply Z.div_lt_upper_bound; lia].
Qed.

Lemma hex_digits_length (fuel : nat) (n : Z) (k : nat) :
  0 <= n < 16 ^ Z.of_nat k -> (1 <= k)%nat -> (length (hex_digits fuel n) <= k)%nat.
Proof.
  revert n k. induction fuel as [|f IH]; intros n k Hn Hk.
  - cbn. lia.
  - cbn [hex_digits]. destruct (Z.ltb_spec n 16) as [Hlt|Hge].
    + cbn. lia.
    + destruct k as [|[|k]]; [lia | cbn in Hn; lia |].
      rewrite length_app. cbn [length].
      assert (length (hex_digits f (n / 16)) <= S k)%nat; [|lia].
      apply IH; [|lia].
      replace (Z.of_nat (S (S k))) with (Z.of_nat (S k) + 1) in Hn by lia.
      rewrite Z.pow_add_r in Hn by lia. change (16 ^ 1) with 16 in Hn.
      split; [apply Z.div_pos; lia | apply Z.div_lt_upper_bound; lia].
Qed.

Lemma toString16_fuel (n : Z) :
  0 <= n -> n < 16 ^ Z.of_nat (S (Z.to_nat (Z.log2 n))).
Proof.
  intros Hn. pose proof (Z.log2_nonneg n) as Hl.
  replace (Z.of_nat (S (Z.to_nat (Z.log2 n)))) with (Z.succ (Z.log2 n)) by lia.
  destruct (Z.eq_dec n 0) as [->|Hnz].
  - cbn. lia.
  - pose proof (Z.log2_spec n ltac:(lia)) as [_ Hup].
    eapply Z.lt_le_trans; [exact Hup|].
    apply Z.pow_le_mono_l. lia.
Qed.

Lemma hex_fold_padStart (width : nat) (s : jsstring) :
  hex_fold 0 (padStart width 48 s) = hex_fold 0 s.
Proof.
  unfold padStart. induction (width - length s)%nat as [|k IH]; [reflexivity|].
  cbn [repeat app hex_fold]. exact IH.
Qed.

Lemma padStart_length (width : nat) (fill : Z) (s : jsstring) :
  (length s <= width)%nat -> length (padStart width fill s) = width.
Proof.
  intros Hs. unfold padStart. rewrite length_app, repeat_length. lia.
Qed.

(** [Buffer.from(s, "hex")] on an even number of hexadecimal digits. *)
Lemma Buffer_from_hex_spec (n : nat) (s : jsstring) (acc v : Z) :
  length s = (2 * n)%nat ->
  hex_fold acc s = Some v ->
  length (Buffer_from_hex s) = n
  /\ fold_left (fun a b => a * 256 + byte_to_Z b) (Buffer_from_hex s) acc = v.
Proof.
  revert s acc. induction n as [|n IH]; intros s acc Hlen Hv.
  - destruct s; [|discriminate]. cbn in *. split; congruence.
  - destruct s as [|hi [|lo rest]]; try (cbn in Hlen; lia).
    cbn [hex_fold] in Hv. cbn [Buffer_from_hex].
    destruct (hex_value hi) as [h|] eqn:Hh; [|discriminate].
    destruct (hex_value lo) as [l|] eqn:Hl; [|discriminate].
    apply hex_value_range in Hh, Hl.
    cbn [length] in Hlen.
    destruct (IH rest ((acc * 16 + h) * 16 + l) ltac:(lia) Hv) as [IHlen IHv].
    cbn [length fold_left]. split; [lia|].
    rewrite byte_to_of_Z, Z.mod_small by lia.
    replace (acc * 256 + (h * 16 + l)) with ((acc * 16 + h) * 16 + l) by lia.
    exact IHv.
Qed.

(** The target has the width of the seed: 256 hexadecimal digits are 128
    bytes. *)
Lemma Buffer_from_padded_hex (n : Z) :
  0 <= n < 256 ^ 128 ->
  Buffer_from_hex (padStart 256 48 (BigInt_toString16 n)) = be_bytes 128 n.
Proof.
  intros Hn.
  assert (256 ^ 128 = 16 ^ Z.of_nat 256) as Hpow by reflexivity.
  pose proof (toString16_fuel n ltac:(lia)) as Hfuel.
  assert (length (BigInt_toString16 n) <= 256)%nat as Hlen
    by (apply hex_digits_length; lia).
  assert (hex_fold 0 (padStart 256 48 (BigInt_toString16 n)) = Some n) as Hv.
  { rewrite hex_fold_padStart. unfold BigInt_toString16.
    rewrite hex_fold_hex_digits by lia. f_equal. }
  destruct (Buffer_from_hex_spec 128 _ 0 n (padStart_length 256 48 _ Hlen) Hv)
    as [Hl Hval].
  apply be_bytes_unique; assumption.
Qed.

Lemma first_byte_not_ff (src : bytes) :
  first_byte_is src xff = false -> length src = 128%nat ->
  0 <= be_value src < 255 * 256 ^ 127.
Proof.
  intros Hff Hlen. destruct src as [|b rest]; [discriminate|].
  cbn [first_byte_is] in Hff. cbn [length] in Hlen.
  rewrite be_value_cons.
  pose proof (be_value_range rest) as Hrest.
  replace (Z.of_nat (length rest)) with 127 in * by lia.
  pose proof (byte_to_Z_range b) as Hb.
  assert (byte_to_Z b <> 255) as Hne.
  { intros E. pose proof (byte_of_to_Z b) as Hback. rewrite E in Hback.
    change (byte_of_Z 255) with xff in Hback. subst b. discriminate. }
  remember (256 ^ 127) as P. nia.
Qed.

(** Lines 389-392 of the source on a 128-byte seed whose first byte is not
    0xFF: the sum does not outgrow the seed's width. *)
Lemma pow_dst_spec (src : bytes) :
  length src = 128%nat -> first_byte_is src xff = false ->
  pow_dst src = Some (be_bytes 128 (be_value src + cnt)).
Proof.
  intros Hlen Hff. unfold pow_dst.
  rewrite BigInt_of_toString_hex by (destruct src; [discriminate | discriminate]).
  pose proof (first_byte_not_ff src Hff Hlen) as Hv.
  rewrite Buffer_from_padded_hex; [reflexivity|].
  assert (256 ^ 128 = 256 * 256 ^ 127) as -> by reflexivity.
  assert (10000 < 256 ^ 127) by reflexivity.
  unfold cnt. remember (256 ^ 127) as P. lia.
Qed.

(** ** The frame written by the packer *)

Section Claims.
Context `{Externals}.

(** C1. For a tag of the registry and arguments its encoder accepts (it
    returns the writer [t]), the buffer returned by [packTlv] is the
    two-byte big-endian tag, the two-byte big-endian payload length and the
    payload unchanged, [4 + length payload] bytes in all; it is returned
    whenever the payload length fits sixteen bits. *)
Theorem packTlv_frames_payload tag encoder args s t s' :
  lookup map tag = Some encoder ->
  encoder args s = (Return t, s') ->
  let payload := Writer.readable t in
  let len := Z.of_nat (length payload) in
  (len <= 0xFFFF ->
   packTlv tag args s = (Return (be_bytes 2 tag ++ be_bytes 2 len ++ payload), s'))
  /\ (forall b s'', packTlv tag args s = (Return b, s'') ->
        s'' = s'
        /\ length b = (4 + length payload)%nat
        /\ be_value (firstn 2 b) = tag
        /\ be_value (firstn 2 (skipn 2 b)) = len
        /\ skipn 4 b = payload).
Proof.
  intros Hm Henc payload len.
  pose proof (lookup_registry_range _ _ _ Hm) as Htag.
  assert (packTlv tag args s =
          (if len <=? 0xFFFF
           then Return (be_bytes 2 tag ++ be_bytes 2 len ++ payload)
           else Throw RangeError, s')) as Hrun.
  { rewrite packTlv_unfold.
    apply (packTlv_over_Return map tag encoder args s t s' Hm Henc). lia. }
  split.
  - intros Hlen. rewrite Hrun.
    replace (len <=? 0xFFFF) with true by (symmetry; apply Z.leb_le; exact Hlen).
    reflexivity.
  - intros b s'' Hb. rewrite Hrun in Hb.
    destruct (Z.leb_spec len 0xFFFF) as [Hlen|Hlen]; [|discriminate].
    assert (b = be_bytes 2 tag ++ be_bytes 2 len ++ payload /\ s'' = s') as [-> ->]
      by (split; congruence).
    assert (0 <= len) by (unfold len; lia).
    split; [reflexivity|]. split; [|split; [|split]].
    + rewrite !length_app, !length_be_bytes. reflexivity.
    + change (firstn 2 (be_bytes 2 tag ++ be_bytes 2 len ++ payload))
        with (be_bytes 2 tag).
      rewrite be_value_be_bytes. apply Z.mod_small. cbn. lia.
    + change (firstn 2 (skipn 2 (be_bytes 2 tag ++ be_bytes 2 len ++ payload)))
        with (be_bytes 2 len).
      rewrite be_value_be_bytes. apply Z.mod_small. cbn. lia.
    + reflexivity.
Qed.

(** C5, as the code has it. A tag that is not in the registry makes
    [packTlv] throw the TypeError of calling [apply] on [undefined], before
    anything is encoded; the client and the world are left as they were. *)
Theorem packTlv_unknown_tag tag args s :
  lookup map tag = None -> packTlv tag args s = (Throw TypeError, s).
Proof.
  intros Hm. rewrite packTlv_unfold. unfold packTlv_over. rewrite Hm. reflexivity.
Qed.

(** C6. No encoder of the registry, and so no call of the packer, changes
    the client it is bound to (its session signature state included); tag
    0x154 writes the sequence counter plus one as four big-endian bytes and
    leaves the counter, and everything else, as it was. *)
Theorem encoders_only_read_session tag encoder args s :
  lookup map tag = Some encoder ->
  this (snd (encoder args s)) = this s
  /\ this (snd (packTlv tag args s)) = this s
  /\ (tag = 0x154 ->
      let next := Sig.seq (sig (this s)) + 1 in
      encoder args s =
      (if Writer.in_range 0 0xFFFFFFFF next
       then Return {| Writer.readable := be_bytes 4 next |}
       else Throw RangeError, s)).
Proof.
  intros Hm. split; [|split].
  - pose proof (registry_reads_only packTlv (packTlv_depth_reads_only 2)) as Hall.
    rewrite Forall_forall in Hall.
    exact (Hall _ (lookup_In _ _ _ Hm) args s).
  - apply packTlv_depth_reads_only.
  - intros -> next. injection Hm as <-.
    unfold enc_0x154, writeU32, call, bind, this_sig, gets, new_Writer, ret, lift.
    fold next. unfold Writer.writeU32.
    destruct (Writer.in_range 0 0xFFFFFFFF next); reflexivity.
Qed.

(** C9. With version [-1] the salted-signature encoder returns exactly the
    supplied signature bytes; the world is untouched, so no salt was signed
    and the journal of external calls has no new entry. *)
Theorem salted_signature_bypass (subCmd : JsVal) (signData : bytes)
  (more : list JsVal) s :
  enc_0x544 (Num (-1) :: subCmd :: Data (Buf signData) :: more) s
  = (Return {| Writer.readable := signData |}, s)
  /\ journal (world (snd (enc_0x544
                (Num (-1) :: subCmd :: Data (Buf signData) :: more) s)))
     = journal (world s).
Proof.
  split; reflexivity.
Qed.

(** C10. Tag 0x100 writes the profile's [subid] when the sub-id argument
    is omitted or zero, and the argument itself only when it is a non-zero
    number. *)
Theorem client_version_sub_id s :
  let a := apk (this s) in
  let layout := fun sub_id =>
    be_bytes 2 1 ++ be_bytes 4 (Apk.ssover a) ++ be_bytes 4 (Apk.appid a)
      ++ be_bytes 4 sub_id ++ be_bytes 4 0 ++ be_bytes 4 (Apk.main_sig_map a) in
  0 <= Apk.ssover a <= 0xFFFFFFFF ->
  - 2 ^ 31 <= Apk.appid a <= 2 ^ 31 - 1 ->
  0 <= Apk.subid a <= 0xFFFFFFFF ->
  0 <= Apk.main_sig_map a <= 0xFFFFFFFF ->
  (forall args, arg 0 args = undefined \/ arg 0 args = Num 0 ->
     enc_0x100 args s = (Return {| Writer.readable := layout (Apk.subid a) |}, s))
  /\ (forall args z, arg 0 args = Num z -> z <> 0 -> 0 <= z <= 0xFFFFFFFF ->
        enc_0x100 args s = (Return {| Writer.readable := layout z |}, s)).
Proof.
  intros a layout Hsso Happ Hsub Hmain. subst a. split.
  - intros args Harg. unfold enc_0x100.
    assert (truthy (arg 0 args) = false) as -> by (destruct Harg as [-> | ->]; reflexivity).
    unfold writeU16, writeU32, write32.
    eapply eq_trans; [chain|].
    unfold layout, Writer.push. cbn [Writer.readable app].
    rewrite <- !app_assoc. reflexivity.
  - intros args z Harg Hz Hr. unfold enc_0x100. rewrite Harg.
    assert (truthy (Num z) = true) as ->
      by (cbn; apply negb_true_iff, Z.eqb_neq; exact Hz).
    unfold writeU16, writeU32, write32.
    eapply eq_trans; [chain|].
    unfold layout, Writer.push. cbn [Writer.readable app].
    rewrite <- !app_assoc. reflexivity.
Qed.

(** C8. Tag 0x511 writes the two-byte count 19, the size of the enabled
    domain set, then for each domain, in the order of the source, the marker
    byte 0x01 and the domain behind its two-byte length; the bytes depend on
    neither the arguments nor the state, so every call yields the same. *)
Theorem enumerated_domains_layout args s :
  domains =
    List.map lit
      [ "aq.qq.com"; "connect.qq.com"; "docs.qq.com"; "game.qq.com";
        "gamecenter.qq.com"; "haoma.qq.com"; "id.qq.com"; "kg.qq.com";
        "mail.qq.com"; "mma.qq.com"; "office.qq.com"; "openmobile.qq.com";
        "qqweb.qq.com"; "qun.qq.com"; "qzone.qq.com"; "ti.qq.com";
        "v.qq.com"; "vip.qq.com"; "y.qq.com" ]%string
  /\ length domains = 19%nat
  /\ enc_0x511 args s =
     (Return {| Writer.readable :=
        be_bytes 2 (Z.of_nat (length domains))
          ++ flat_map (fun d => x01 :: be_bytes 2 (Z.of_nat (length (utf8 d))) ++ utf8 d)
               domains |}, s)
  /\ forall args' s', fst (enc_0x511 args' s') = fst (enc_0x511 args s).
Proof.
  repeat split; vm_compute; reflexivity.
Qed.

End Claims.

Section Composite.
Context `{Externals}.

Lemma lookup_map_leaf :
  lookup map 0x109 = Some enc_0x109
  /\ lookup map 0x52d = Some enc_0x52d
  /\ lookup map 0x124 = Some enc_0x124
  /\ lookup map 0x128 = Some enc_0x128
  /\ lookup map 0x16e = Some enc_0x16e.
Proof.
  unfold map, registry. cbn [lookup Z.eqb Pos.eqb]. repeat split; reflexivity.
Qed.

(** Packing an encoder that touches nothing touches nothing. *)
Lemma packTlv_keeps_state tag encoder args :
  lookup map tag = Some encoder ->
  keeps_state (encoder args) -> keeps_state (packTlv tag args).
Proof.
  intros Hm Henc s. rewrite packTlv_unfold. revert s.
  change (keeps_state (packTlv_over map tag args)).
  unfold packTlv_over. rewrite Hm. still. exact Henc.
Qed.

(** The five sub-tags of 0x144 only read the device profile. *)
Lemma sub_tags_keep_state tag :
  In tag [0x109; 0x52d; 0x124; 0x128; 0x16e] -> keeps_state (packTlv tag []).
Proof.
  destruct lookup_map_leaf as (H109 & H52d & H124 & H128 & H16e).
  intros [<-|[<-|[<-|[<-|[<-|[]]]]]].
  - apply (packTlv_keeps_state _ _ _ H109). unfold enc_0x109. still.
  - apply (packTlv_keeps_state _ _ _ H52d). unfold enc_0x52d. still.
  - apply (packTlv_keeps_state _ _ _ H124). unfold enc_0x124. still.
  - apply (packTlv_keeps_state _ _ _ H128). unfold enc_0x128. still.
  - apply (packTlv_keeps_state _ _ _ H16e). unfold enc_0x16e. still.
Qed.

(** Packing one of the five sub-tags: the frame around what its encoder
    wrote. *)
Lemma sub_tag_block tag encoder s t :
  In tag [0x109; 0x52d; 0x124; 0x128; 0x16e] ->
  lookup map tag = Some encoder ->
  keeps_state (encoder []) ->
  fst (encoder [] s) = Return t ->
  Z.of_nat (length (Writer.readable t)) <= 0xFFFF ->
  packTlv tag [] s = (Return (tlv_block tag (Writer.readable t)), s).
Proof.
  intros Htag Hm Hstill Ht Hlen.
  assert (encoder [] s = (Return t, s)) as Hrun
    by (rewrite (surjective_pairing (encoder [] s)), Ht, (Hstill s); reflexivity).
  rewrite packTlv_unfold.
  rewrite (packTlv_over_Return map tag encoder [] s t s Hm Hrun)
    by (pose proof (lookup_registry_range _ _ _ Hm); lia).
  unfold Writer.readableLength.
  rewrite (proj2 (Z.leb_le _ _) Hlen). reflexivity.
Qed.

Lemma packed_arg (p : Packer) tag s b :
  p tag [] s = (Return b, s) ->
  (x <- p tag [] ;; ret (Buf x)) s = (Return (Buf b), s).
Proof. intros Hrun. rewrite (bind_Return _ _ _ _ _ Hrun). reflexivity. Qed.

(** C4. The payload of tag 0x144 is the cipher, under [sig.tgtgt], of the
    two-byte count 5 followed by the packed blocks of tags 0x109, 0x52d,
    0x124, 0x128 and 0x16e, in this order; each block is the two-byte tag,
    the two-byte length and the payload the encoder of that tag wrote.  The
    filler of the cipher is all that is drawn. *)
Theorem composite_device_info_payload args s t1 t2 t3 t4 t5 :
  let block := fun tag t => tlv_block tag (Writer.readable t) in
  let inner := be_bytes 2 5 ++ block 0x109 t1 ++ block 0x52d t2
                 ++ block 0x124 t3 ++ block 0x128 t4 ++ block 0x16e t5 in
  let fill := tea_filler (length inner) in
  fst (enc_0x109 [] s) = Return t1 ->
  fst (enc_0x52d [] s) = Return t2 ->
  fst (enc_0x124 [] s) = Return t3 ->
  fst (enc_0x128 [] s) = Return t4 ->
  fst (enc_0x16e [] s) = Return t5 ->
  Forall (fun t => Z.of_nat (length (Writer.readable t)) <= 0xFFFF)
         [t1; t2; t3; t4; t5] ->
  (fill <= length (entropy (world s)))%nat ->
  lookup map 0x144 = Some (enc_0x144 packTlv)
  /\ packTlv 0x109 [] s = (Return (block 0x109 t1), s)
  /\ packTlv 0x52d [] s = (Return (block 0x52d t2), s)
  /\ packTlv 0x124 [] s = (Return (block 0x124 t3), s)
  /\ packTlv 0x128 [] s = (Return (block 0x128 t4), s)
  /\ packTlv 0x16e [] s = (Return (block 0x16e t5), s)
  /\ enc_0x144 packTlv args s =
     (Return {| Writer.readable :=
        tea_blocks (firstn fill (entropy (world s))) inner
                   (Sig.tgtgt (sig (this s))) |}, drained fill s).
Proof.
  intros block inner fill H1 H2 H3 H4 H5 Hlen Hfill.
  destruct lookup_map_leaf as (M109 & M52d & M124 & M128 & M16e).
  inversion Hlen as [|? ? L1 Hl1]; subst.
  inversion Hl1 as [|? ? L2 Hl2]; subst.
  inversion Hl2 as [|? ? L3 Hl3]; subst.
  inversion Hl3 as [|? ? L4 Hl4]; subst.
  inversion Hl4 as [|? ? L5 _]; subst.
  assert (packTlv 0x109 [] s = (Return (block 0x109 t1), s)) as P1.
  { apply (sub_tag_block 0x109 enc_0x109); try assumption; [cbn; tauto|].
    unfold enc_0x109. still. }
  assert (packTlv 0x52d [] s = (Return (block 0x52d t2), s)) as P2.
  { apply (sub_tag_block 0x52d enc_0x52d); try assumption; [cbn; tauto|].
    unfold enc_0x52d. still. }
  assert (packTlv 0x124 [] s = (Return (block 0x124 t3), s)) as P3.
  { apply (sub_tag_block 0x124 enc_0x124); try assumption; [cbn; tauto|].
    unfold enc_0x124. still. }
  assert (packTlv 0x128 [] s = (Return (block 0x128 t4), s)) as P4.
  { apply (sub_tag_block 0x128 enc_0x128); try assumption; [cbn; tauto|].
    unfold enc_0x128. still. }
  assert (packTlv 0x16e [] s = (Return (block 0x16e t5), s)) as P5.
  { apply (sub_tag_block 0x16e enc_0x16e); try assumption; [cbn; tauto|].
    unfold enc_0x16e. still. }
  split; [apply lookup_registry_0x144|].
  do 5 (split; [assumption|]).
  unfold enc_0x144.
  assert ((new_Writer
             >>= writeU16 (val 5)
             >>= writeBytes (b <- packTlv 0x109 [] ;; ret (Buf b))
             >>= writeBytes (b <- packTlv 0x52d [] ;; ret (Buf b))
             >>= writeBytes (b <- packTlv 0x124 [] ;; ret (Buf b))
             >>= writeBytes (b <- packTlv 0x128 [] ;; ret (Buf b))
             >>= writeBytes (b <- packTlv 0x16e [] ;; ret (Buf b))) s
          = (Return {| Writer.readable := inner |}, s)) as Hbody.
  { unfold writeBytes, writeU16.
    eapply eq_trans.
    - repeat (eapply step_Return;
              [| apply packed_arg; eassumption | reflexivity]).
      chain.
    - unfold Writer.push, inner. cbn [Writer.readable Writer.empty to_buffer app].
      rewrite <- !app_assoc. reflexivity. }
  rewrite (bind_Return _ _ _ _ _ Hbody).
  unfold writeBytes.
  eapply eq_trans.
  - eapply step_Return; [reflexivity | | reflexivity].
    rewrite (bind_Return _ _ _ _ _ (read_Return {| Writer.readable := inner |} s)).
    cbn [Writer.readable].
    unfold this_sig, gets, bind at 1.
    rewrite (bind_Return _ _ _ _ _
               (tea_encrypt_Return inner (Sig.tgtgt (sig (this s))) s Hfill)).
    reflexivity.
  - reflexivity.
Qed.

End Composite.

Section Truncation.
Context `{Externals}.

(** C7, as the code has it. Tags 0x124 and 0x128 write each device field
    through [slice(0, cap)] and the two-byte length prefix: a string keeps
    its first [cap] UTF-16 code units (then encoded as UTF-8), a buffer its
    first [cap] bytes.  So a field that is a buffer or an ASCII-only string
    and is longer than the cap is written as exactly its first [cap] bytes. *)
Theorem device_fields_are_sliced args s cap field :
  byte_per_unit field ->
  (cap < length (to_buffer field))%nat ->
  let d := device (this s) in
  enc_0x124 args s =
    (Return {| Writer.readable :=
       tlv_field (slice0 16 (Device.os_type d))
         ++ tlv_field (slice0 16 (Version.release (Device.version d)))
         ++ be_bytes 2 2
         ++ tlv_field (slice0 16 (Device.sim d))
         ++ be_bytes 2 0
         ++ tlv_field (slice0 16 (Device.apn d)) |}, s)
  /\ enc_0x128 args s =
    (Return {| Writer.readable :=
       be_bytes 2 0 ++ be_bytes 1 0 ++ be_bytes 1 1 ++ be_bytes 1 0
         ++ be_bytes 4 16777216
         ++ tlv_field (slice0 32 (Device.model d))
         ++ tlv_field (slice0 16 (Device.guid d))
         ++ tlv_field (slice0 16 (Device.brand d)) |}, s)
  /\ tlv_field (slice0 cap field)
     = be_bytes 2 (Z.of_nat cap) ++ firstn cap (to_buffer field).
Proof.
  intros Hfield Hcap d. subst d. split; [|split].
  - unfold enc_0x124, writeTlv, writeU16.
    eapply eq_trans.
    + repeat first
        [ eapply step_Return;
          [| read_arg | first [ apply writeTlv_slice0; lia | writer_op ] ]
        | reflexivity ].
    + unfold Writer.push. cbn [Writer.readable app]. rewrite <- !app_assoc.
      reflexivity.
  - unfold enc_0x128, writeTlv, writeU16, writeU8, writeU32.
    eapply eq_trans.
    + repeat first
        [ eapply step_Return;
          [| read_arg | first [ apply writeTlv_slice0; lia | writer_op ] ]
        | reflexivity ].
    + unfold Writer.push. cbn [Writer.readable app]. rewrite <- !app_assoc.
      reflexivity.
  - unfold tlv_field. rewrite (slice0_byte_per_unit cap field Hfield).
    rewrite length_firstn, Nat.min_l by lia. reflexivity.
Qed.

End Truncation.

(** ** The proof-of-work encoder *)

Section ProofOfWork.
Context `{Externals}.

Lemma randomBytes_inv (n : nat) s (src : bytes) s' :
  crypto_randomBytes n s = (Return src, s') ->
  length src = n /\ same_but_entropy s s'.
Proof.
  unfold crypto_randomBytes. cbv zeta.
  destruct (Nat.leb_spec n (length (entropy (world s)))) as [Hn|Hn]; [|discriminate].
  intros [= <- <-]. split.
  - apply firstn_length_le. exact Hn.
  - repeat split.
Qed.

Lemma randomBytes_Return (n : nat) s (src rest : bytes) :
  entropy (world s) = src ++ rest -> length src = n ->
  crypto_randomBytes n s =
  (Return src,
   {| this := this s;
      world := {| entropy := rest; now_ms := now_ms (world s);
                  journal := journal (world s) |} |}).
Proof.
  intros He Hn. unfold crypto_randomBytes. cbv zeta. rewrite He.
  assert ((n <=? length (src ++ rest))%nat = true) as ->
    by (apply Nat.leb_le; rewrite length_app; lia).
  rewrite <- Hn, firstn_app, Nat.sub_diag, firstn_all, firstn_O, app_nil_r.
  rewrite skipn_app, Nat.sub_diag, skipn_all, skipn_O. reflexivity.
Qed.

(** What the [while] loop establishes when it ends: the first byte is
    neither 0x00 nor 0xFF, the length is what it was, and only entropy was
    used. *)
Lemma reroll_inv (turns : nat) (src : bytes) s (src' : bytes) s' :
  reroll turns src s = (Return src', s') ->
  length src' = length src
  /\ first_byte_is src' x00 = false
  /\ first_byte_is src' xff = false
  /\ same_but_entropy s s'.
Proof.
  revert src s. induction turns as [|k IH]; intros src s; cbn [reroll];
    destruct (first_byte_is src x00 || first_byte_is src xff) eqn:Hbad.
  - discriminate.
  - intros [= <- <-]. apply orb_false_elim in Hbad as [H0 Hff].
    repeat split; assumption.
  - unfold bind.
    destruct (crypto_randomBytes 1 s) as [[r|e|] s1] eqn:Hr; try discriminate.
    intros Hrun. apply randomBytes_inv in Hr as [_ (Ht & Hn & Hj)].
    apply IH in Hrun as (Hlen & H0 & Hff & Ht' & Hn' & Hj').
    split; [|repeat split; congruence].
    rewrite Hlen. destruct r as [|b r]; [reflexivity|].
    destruct src as [|c src]; [discriminate Hbad | reflexivity].
  - intros [= <- <-]. apply orb_false_elim in Hbad as [H0 Hff].
    repeat split; assumption.
Qed.

Lemma pow_seed_inv s (src : bytes) s' :
  pow_seed s = (Return src, s') ->
  length src = 128%nat
  /\ first_byte_is src x00 = false
  /\ first_byte_is src xff = false
  /\ same_but_entropy s s'.
Proof.
  unfold pow_seed, bind.
  destruct (crypto_randomBytes 128 s) as [[src0|e|] s0] eqn:Hdraw; try discriminate.
  apply randomBytes_inv in Hdraw as [Hlen0 (Ht & Hn & Hj)].
  unfold reroll_first_byte. intros Hrun.
  apply reroll_inv in Hrun as (Hlen & H0 & Hff & Ht' & Hn' & Hj').
  repeat split; congruence.
Qed.

(** A seed whose first draw is already admissible is kept, and no further
    entropy is taken. *)
Lemma pow_seed_Return s (src rest : bytes) :
  entropy (world s) = src ++ rest ->
  length src = 128%nat ->
  first_byte_is src x00 = false ->
  first_byte_is src xff = false ->
  pow_seed s =
  (Return src,
   {| this := this s;
      world := {| entropy := rest; now_ms := now_ms (world s);
                  journal := journal (world s) |} |}).
Proof.
  intros He Hlen H0 Hff. unfold pow_seed.
  rewrite (bind_Return _ _ _ _ _ (randomBytes_Return 128 s src rest He Hlen)).
  unfold reroll_first_byte. cbn [reroll]. rewrite H0, Hff. reflexivity.
Qed.

Lemma pow_writer_Return (src tgt : bytes) s :
  Z.of_nat (length src) <= 0xFFFF -> Z.of_nat (length tgt) <= 0xFFFF ->
  pow_writer src tgt s = (Return {| Writer.readable := pow_cpy src tgt |}, s).
Proof.
  intros Hsrc Htgt. unfold pow_writer, writeU8, writeU16, writeBytes, writeTlv.
  eapply eq_trans.
  - repeat first
      [ eapply step_Return;
        [| read_arg
         | first [ apply writeTlv_Return; assumption | writer_op ] ]
      | reflexivity ].
  - unfold Writer.push, pow_cpy, pow_header, tlv_field.
    cbn [Writer.readable to_buffer]. rewrite <- !app_assoc. reflexivity.
Qed.

Lemma pow_cpy_length (src tgt : bytes) :
  length (pow_cpy src tgt) = (12 + length src + length tgt)%nat.
Proof.
  unfold pow_cpy, pow_header, tlv_field. cbn [to_buffer].
  rewrite !length_app, !length_be_bytes. cbn [length]. lia.
Qed.

(** Lines 403-407: the writer still holds the assembled bytes after the
    first [read()], so what is read at the end is those bytes, the raw
    copy and the length-prefixed copy. *)
Lemma pow_t546_Return (cpy : bytes) s :
  Z.of_nat (length cpy) <= 0xFFFF ->
  (ret {| Writer.readable := cpy |}
     >>= writeBytes (val (Buf cpy))
     >>= writeTlv (val (Buf cpy))
     >>= read) s
  = (Return (cpy ++ cpy ++ tlv_field (Buf cpy)), s).
Proof.
  intros Hlen.
  assert ((ret {| Writer.readable := cpy |}
             >>= writeBytes (val (Buf cpy))
             >>= writeTlv (val (Buf cpy))) s
          = (Return {| Writer.readable := cpy ++ cpy ++ tlv_field (Buf cpy) |}, s))
    as Hw.
  { unfold writeBytes, writeTlv.
    eapply eq_trans.
    - eapply step_Return.
      + eapply step_Return; [reflexivity | read_arg | reflexivity].
      + read_arg.
      + rewrite writeTlv_Return by exact Hlen. reflexivity.
    - unfold Writer.push, tlv_field. cbn [Writer.readable to_buffer].
      rewrite <- !app_assoc. reflexivity. }
  rewrite (bind_Return _ _ _ _ _ Hw). apply read_Return.
Qed.

(** The whole encoder, from the seed the loop ends with. *)
Lemma enc_0x548_run args s (src : bytes) s1 :
  pow_seed s = (Return src, s1) ->
  let cpy := pow_cpy src (sha256 (be_bytes 128 (be_value src + 10000))) in
  let t546 := cpy ++ cpy ++ tlv_field (Buf cpy) in
  enc_0x548 args s =
  (Return {| Writer.readable := calcPoW t546 |},
   {| this := this s1;
      world := {| entropy := entropy (world s1); now_ms := now_ms (world s1);
                  journal := journal (world s1) ++ [CallCalcPoW t546] |} |}).
Proof.
  intros Hseed cpy t546.
  destruct (pow_seed_inv s src s1 Hseed) as (Hlen & _ & Hff & _).
  unfold enc_0x548.
  rewrite (bind_Return _ _ _ _ _ Hseed).
  rewrite (pow_dst_spec src Hlen Hff).
  rewrite (bind_Return (ret _) _ _ _ _ eq_refl).
  cbv zeta. unfold pow_tgt, cnt. fold cpy.
  rewrite (bind_Return _ _ _ _ _
             (pow_writer_Return src _ _ ltac:(lia)
                ltac:(rewrite sha256_length; lia))).
  fold cpy.
  rewrite (bind_Return _ _ _ _ _ (read_Return {| Writer.readable := cpy |} _)).
  cbn [Writer.readable].
  rewrite (bind_Return _ _ _ _ _
             (pow_t546_Return cpy _
                ltac:(unfold cpy; rewrite pow_cpy_length, sha256_length; lia))).
  fold t546. reflexivity.
Qed.

(** C2, as the code has it. For a 128-byte seed whose first byte is neither
    0x00 nor 0xFF the target is the seed, read as a big-endian integer, plus
    10000, written as 256 hexadecimal digits, that is as 128 big-endian
    bytes; the digest is the SHA-256 of that target and is what every run
    ending its loop on this seed puts into the challenge; target, digest and
    payload are functions of the seed alone. *)
Theorem pow_target_and_digest (src : bytes) :
  length src = 128%nat ->
  first_byte_is src x00 = false ->
  first_byte_is src xff = false ->
  let target := be_bytes 128 (be_value src + 10000) in
  pow_dst src = Some target
  /\ length target = 128%nat
  /\ be_value target = be_value src + 10000
  /\ pow_tgt target = sha256 target
  /\ (forall args s s1,
        pow_seed s = (Return src, s1) ->
        exists before after,
          journal (world (snd (enc_0x548 args s)))
          = journal (world s)
              ++ [CallCalcPoW (before ++ tlv_field (Buf src)
                                 ++ tlv_field (Buf (sha256 target)) ++ after)])
  /\ (forall args s s1 args' s' s1',
        pow_seed s = (Return src, s1) ->
        pow_seed s' = (Return src, s1') ->
        fst (enc_0x548 args' s') = fst (enc_0x548 args s)).
Proof.
  intros Hlen H0 Hff target.
  split; [exact (pow_dst_spec src Hlen Hff)|].
  split; [apply length_be_bytes|].
  split.
  { unfold target. rewrite be_value_be_bytes.
    pose proof (first_byte_not_ff src Hff Hlen) as Hv.
    apply Z.mod_small.
    assert (256 ^ Z.of_nat 128 = 256 * 256 ^ 127) as -> by reflexivity.
    assert (10000 < 256 ^ 127) by reflexivity.
    remember (256 ^ 127) as P. lia. }
  split; [reflexivity|].
  split.
  - intros args s s1 Hseed.
    exists pow_header,
      (pow_cpy src (sha256 target) ++ tlv_field (Buf (pow_cpy src (sha256 target)))).
    rewrite (enc_0x548_run args s src s1 Hseed).
    destruct (pow_seed_inv s src s1 Hseed) as (_ & _ & _ & _ & _ & Hj).
    cbn [snd world journal]. rewrite Hj.
    unfold pow_cpy. rewrite <- !app_assoc. reflexivity.
  - intros args s s1 args' s' s1' Hseed Hseed'.
    rewrite (enc_0x548_run args s src s1 Hseed).
    rewrite (enc_0x548_run args' s' src s1' Hseed').
    reflexivity.
Qed.

(** C3. The challenge handed to the solver is the assembled buffer (the
    header of version, type, hash type, status, max index and two reserved
    bytes, then the length-prefixed seed and the length-prefixed digest),
    followed by a raw copy of that buffer and by a length-prefixed copy of
    it.  The solver's answer is the payload, byte for byte, and the call is
    the only one made. *)
Theorem pow_challenge_layout args s (src : bytes) s1 :
  pow_seed s = (Return src, s1) ->
  let tgt := sha256 (be_bytes 128 (be_value src + 10000)) in
  let cpy := pow_header ++ tlv_field (Buf src) ++ tlv_field (Buf tgt) in
  let challenge := cpy ++ cpy ++ tlv_field (Buf cpy) in
  fst (enc_0x548 args s) = Return {| Writer.readable := calcPoW challenge |}
  /\ journal (world (snd (enc_0x548 args s)))
     = journal (world s) ++ [CallCalcPoW challenge]
  /\ pow_header = [x01; x02; x01; x02; x00; x0a; x00; x00]
  /\ length cpy = 172%nat
  /\ length challenge = 518%nat.
Proof.
  intros Hseed tgt cpy challenge.
  rewrite (enc_0x548_run args s src s1 Hseed).
  destruct (pow_seed_inv s src s1 Hseed) as (Hlen & _ & _ & _ & _ & Hj).
  assert (length cpy = 172%nat) as Hcpy.
  { change cpy with (pow_cpy src tgt). rewrite pow_cpy_length.
    unfold tgt. rewrite sha256_length. lia. }
  split; [reflexivity|]. split; [cbn [snd world journal]; rewrite Hj; reflexivity|].
  split; [reflexivity|].
  split; [exact Hcpy|].
  unfold challenge, tlv_field. cbn [to_buffer].
  rewrite !length_app, length_be_bytes, Hcpy. reflexivity.
Qed.

End ProofOfWork.

(** * Further properties of the packer and the encoders *)

Section PackerEdges.
Context `{Externals}.

(** What a successful call of the packer says about its encoder. *)
Lemma packTlv_Return_inv tag args s b s' :
  packTlv tag args s = (Return b, s') ->
  exists encoder t,
    lookup map tag = Some encoder
    /\ encoder args s = (Return t, s')
    /\ Writer.readableLength t <= 0xFFFF
    /\ b = be_bytes 2 tag ++ be_bytes 2 (Writer.readableLength t) ++ Writer.readable t.
Proof.
  rewrite packTlv_unfold. intros Hrun.
  destruct (lookup map tag) as [encoder|] eqn:Hm.
  2:{ unfold packTlv_over in Hrun. rewrite Hm in Hrun. discriminate. }
  pose proof (lookup_registry_range _ _ _ Hm) as Htag.
  destruct (encoder args s) as [[t|e|] s1] eqn:Henc.
  - rewrite (packTlv_over_Return map tag encoder args s t s1 Hm Henc) in Hrun by lia.
    destruct (Z.leb_spec (Writer.readableLength t) 0xFFFF) as [Hlen|Hlen];
      [|discriminate].
    injection Hrun as <- <-. exists encoder, t. repeat split; assumption.
  - exfalso. unfold packTlv_over in Hrun. rewrite Hm in Hrun.
    rewrite (bind_Throw _ _ _ _ _ Henc) in Hrun. discriminate.
  - exfalso. unfold packTlv_over in Hrun. rewrite Hm in Hrun.
    unfold bind at 1 in Hrun. rewrite Henc in Hrun. discriminate.
Qed.

(** X1. The packer in terms of the encoder it finds: an encoder that
    throws (or runs out of entropy) ends the call in the same way and no
    frame is built; an encoder that returns is framed when its payload has
    at most 0xFFFF bytes and refused with a RangeError otherwise.  In every
    case the state is the one the encoder left, so what it drew or called
    stays drawn and called. *)
Theorem packTlv_outcomes tag encoder args s :
  lookup map tag = Some encoder ->
  packTlv tag args s =
  match encoder args s with
  | (Return t, s') =>
      (if Z.of_nat (length (Writer.readable t)) <=? 0xFFFF
       then Return (be_bytes 2 tag
                      ++ be_bytes 2 (Z.of_nat (length (Writer.readable t)))
                      ++ Writer.readable t)
       else Throw RangeError, s')
  | (Throw e, s') => (Throw e, s')
  | (Starved, s') => (Starved, s')
  end.
Proof.
  intros Hm. rewrite packTlv_unfold.
  destruct (encoder args s) as [[t|e|] s'] eqn:Henc.
  - apply (packTlv_over_Return map tag encoder args s t s' Hm Henc).
    pose proof (lookup_registry_range _ _ _ Hm). lia.
  - unfold packTlv_over. rewrite Hm. apply bind_Throw. exact Henc.
  - unfold packTlv_over. rewrite Hm. unfold bind at 1. rewrite Henc. reflexivity.
Qed.

(** X2. A packed block is self-delimiting: in front of any further bytes,
    its first two bytes give the tag and its next two the number of payload
    bytes to take, which splits the stream into the block and the rest. *)
Theorem packTlv_block_is_self_delimiting tag args s b s' (rest : bytes) :
  packTlv tag args s = (Return b, s') ->
  let stream := b ++ rest in
  let size := (4 + Z.to_nat (be_value (firstn 2 (skipn 2 stream))))%nat in
  be_value (firstn 2 stream) = tag
  /\ firstn size stream = b
  /\ skipn size stream = rest.
Proof.
  intros Hrun stream size.
  destruct (packTlv_Return_inv tag args s b s' Hrun)
    as (encoder & t & Hm & _ & Hlen & Hb).
  pose proof (lookup_registry_range _ _ _ Hm) as Htag.
  assert (0 <= Writer.readableLength t) as Hpos
    by (unfold Writer.readableLength; lia).
  assert (be_value (be_bytes 2 tag) = tag) as Etag
    by (rewrite be_value_be_bytes; apply Z.mod_small; cbn; lia).
  assert (be_value (be_bytes 2 (Writer.readableLength t)) = Writer.readableLength t)
    as Elen by (rewrite be_value_be_bytes; apply Z.mod_small; cbn; lia).
  assert (firstn 2 stream = be_bytes 2 tag) as E1 by (unfold stream; subst b; reflexivity).
  assert (firstn 2 (skipn 2 stream) = be_bytes 2 (Writer.readableLength t)) as E2
    by (unfold stream; subst b; reflexivity).
  assert (size = length b) as Esize.
  { unfold size. rewrite E2, Elen. subst b.
    rewrite !length_app, !length_be_bytes. unfold Writer.readableLength. lia. }
  rewrite E1, Etag, Esize. unfold stream.
  split; [reflexivity|]. split.
  - rewrite firstn_app, Nat.sub_diag, firstn_all, firstn_O, app_nil_r. reflexivity.
  - rewrite skipn_app, Nat.sub_diag, skipn_all, skipn_O. reflexivity.
Qed.

End PackerEdges.

(** ** Which encoders touch what *)

Lemma same_but_entropy_refl s : same_but_entropy s s.
Proof. repeat split. Qed.

Lemma same_but_entropy_trans s1 s2 s3 :
  same_but_entropy s1 s2 -> same_but_entropy s2 s3 -> same_but_entropy s1 s3.
Proof.
  intros (Ht & Hn & Hj) (Ht' & Hn' & Hj'). repeat split; congruence.
Qed.

Lemma uses_only_entropy_ret {A} (a : A) : uses_only_entropy (ret a).
Proof. intro s. apply same_but_entropy_refl. Qed.

Lemma uses_only_entropy_lift {A} (o : outcome A) : uses_only_entropy (lift o).
Proof. intro s. apply same_but_entropy_refl. Qed.

Lemma uses_only_entropy_gets {A} (f : BaseClient -> A) : uses_only_entropy (gets f).
Proof. intro s. apply same_but_entropy_refl. Qed.

Lemma uses_only_entropy_Date_now : uses_only_entropy Date_now.
Proof. intro s. apply same_but_entropy_refl. Qed.

Lemma uses_only_entropy_randomBytes n : uses_only_entropy (crypto_randomBytes n).
Proof.
  intro s. unfold crypto_randomBytes. cbv zeta.
  destruct (n <=? length (entropy (world s)))%nat; repeat split.
Qed.

Lemma uses_only_entropy_bind {A B} (m : M A) (k : A -> M B) :
  uses_only_entropy m -> (forall a, uses_only_entropy (k a)) ->
  uses_only_entropy (bind m k).
Proof.
  intros Hm Hk s. unfold bind. specialize (Hm s).
  destruct (m s) as [[a|e|] s1]; cbn [snd] in *; [|exact Hm|exact Hm].
  exact (same_but_entropy_trans _ _ _ Hm (Hk a s1)).
Qed.

Lemma uses_only_entropy_call {A} (op : A -> Writer.t -> outcome Writer.t)
  (a : M A) w :
  uses_only_entropy a -> uses_only_entropy (call op a w).
Proof.
  intros Ha. unfold call. apply uses_only_entropy_bind; [exact Ha|].
  intro x. apply uses_only_entropy_lift.
Qed.

Lemma uses_only_entropy_for_of {A} (xs : list A) body w :
  (forall x w', uses_only_entropy (body x w')) ->
  uses_only_entropy (for_of xs body w).
Proof.
  intros Hb. revert w. induction xs as [|x xs IH]; intro w; cbn [for_of].
  - apply uses_only_entropy_ret.
  - apply uses_only_entropy_bind; [apply Hb | exact IH].
Qed.

Ltac only_entropy :=
  repeat first
    [ progress intros
    | apply uses_only_entropy_bind
    | apply uses_only_entropy_call
    | apply uses_only_entropy_for_of
    | apply uses_only_entropy_ret
    | apply uses_only_entropy_lift
    | apply uses_only_entropy_gets
    | apply uses_only_entropy_Date_now
    | apply uses_only_entropy_randomBytes
    | assumption
    | match goal with
      | |- uses_only_entropy (if ?b then _ else _) => destruct b
      | |- uses_only_entropy (match ?x with _ => _ end) => destruct x
      end
    | progress cbv beta delta
        [ new_Writer val writeU8 writeU16 write32 writeU32 writeU64
          writeBytes writeTlv read randomBuf unix_seconds throw
          this_device this_apk this_sig ] ].

Lemma client_function_ret {A} (a : A) : client_function (ret a).
Proof. split; intros; reflexivity. Qed.

Lemma client_function_lift {A} (o : outcome A) : client_function (lift o).
Proof. split; intros; reflexivity. Qed.

Lemma client_function_gets {A} (f : BaseClient -> A) : client_function (gets f).
Proof.
  split; [reflexivity|]. intros s s' Hs. unfold gets. cbn. rewrite Hs. reflexivity.
Qed.

Lemma client_function_bind {A B} (m : M A) (k : A -> M B) :
  client_function m -> (forall a, client_function (k a)) ->
  client_function (bind m k).
Proof.
  intros [Hm1 Hm2] Hk. split.
  - intro s. unfold bind. specialize (Hm1 s).
    destruct (m s) as [[a|e|] s1]; cbn [snd] in *; subst s1;
      [apply (proj1 (Hk a)) | reflexivity | reflexivity].
  - intros s s' Hs. unfold bind.
    pose proof (Hm1 s) as E1. pose proof (Hm1 s') as E2.
    specialize (Hm2 s s' Hs).
    destruct (m s) as [o1 s1], (m s') as [o2 s2]. cbn [fst snd] in *.
    subst s1 s2 o2.
    destruct o1 as [a|e|]; [apply (proj2 (Hk a)); exact Hs | reflexivity | reflexivity].
Qed.

Lemma client_function_call {A} (op : A -> Writer.t -> outcome Writer.t)
  (a : M A) w :
  client_function a -> client_function (call op a w).
Proof.
  intros Ha. unfold call. apply client_function_bind; [exact Ha|].
  intro x. apply client_function_lift.
Qed.

Lemma client_function_for_of {A} (xs : list A) body w :
  (forall x w', client_function (body x w')) ->
  client_function (for_of xs body w).
Proof.
  intros Hb. revert w. induction xs as [|x xs IH]; intro w; cbn [for_of].
  - apply client_function_ret.
  - apply client_function_bind; [apply Hb | exact IH].
Qed.

Ltac of_client :=
  repeat first
    [ progress intros
    | apply client_function_bind
    | apply client_function_call
    | apply client_function_for_of
    | apply client_function_ret
    | apply client_function_lift
    | apply client_function_gets
    | assumption
    | match goal with
      | |- client_function (if ?b then _ else _) => destruct b
      | |- client_function (match ?x with _ => _ end) => destruct x
      end
    | progress cbv beta delta
        [ new_Writer val writeU8 writeU16 write32 writeU32 writeU64
          writeBytes writeTlv read throw this_device this_apk this_sig ] ].

(** [chain_by arg op] runs a chain of method calls from its receiver on,
    with [arg] for the arguments and [op] for the methods. *)
Ltac chain_by arg_tac op_tac :=
  lazymatch goal with
  | |- bind _ (call _ _) _ = _ =>
      eapply step_Return; [ chain_by arg_tac op_tac | arg_tac | op_tac ]
  | |- _ => reflexivity
  end.

Section Effects.
Context `{Externals}.

Lemma packTlv_over_client_function (m : list (Z * Encoder)) tag encoder args :
  lookup m tag = Some encoder ->
  client_function (encoder args) ->
  client_function (packTlv_over m tag args).
Proof.
  intros Hm Henc. unfold packTlv_over. rewrite Hm. of_client.
Qed.

Lemma packTlv_client_function tag encoder args :
  lookup map tag = Some encoder ->
  client_function (encoder args) ->
  client_function (packTlv tag args).
Proof.
  intros Hm Henc.
  pose proof (packTlv_over_client_function map tag encoder args Hm Henc) as [H1 H2].
  split.
  - intro s. rewrite packTlv_unfold. apply H1.
  - intros s s' Hs. rewrite !packTlv_unfold. apply H2. exact Hs.
Qed.

Lemma registry_client_function :
  Forall (fun entry => ~ In (fst entry) impure_tags ->
                       forall args, client_function (snd entry args)) map.
Proof.
  unfold map, registry.
  repeat (apply Forall_cons; [cbn [fst snd]; intros Hpure args|]);
    try apply Forall_nil.
  all: first
         [ exfalso; apply Hpure; cbn; tauto
         | match goal with |- client_function (?enc _) => unfold enc end;
           solve [of_client]
         | solve [of_client] ].
Qed.

(** X10. Every tag but 0x01, 0x106, 0x144, 0x400, 0x401, 0x544 and 0x548
    is a function of the client and the arguments: its encoder, and the
    packer on it, leave client and world untouched (no random byte drawn,
    no clock read, neither signer nor solver called) and give the same
    outcome in any two worlds.  The two tags that encrypt, 0x106 and 0x144,
    are not among them: the cipher draws its filler. *)
Theorem pure_tags_are_functions_of_the_client tag encoder args :
  lookup map tag = Some encoder ->
  ~ In tag impure_tags ->
  client_function (encoder args) /\ client_function (packTlv tag args).
Proof.
  intros Hm Hpure.
  assert (client_function (encoder args)) as Henc.
  { pose proof registry_client_function as Hall. rewrite Forall_forall in Hall.
    exact (Hall _ (lookup_In _ _ _ Hm) Hpure args). }
  split; [exact Henc|]. exact (packTlv_client_function tag encoder args Hm Henc).
Qed.

Lemma uses_only_entropy_tea_encrypt data key :
  uses_only_entropy (tea_encrypt data key).
Proof. unfold tea_encrypt. only_entropy. Qed.

Lemma uses_only_entropy_reroll turns src : uses_only_entropy (reroll turns src).
Proof.
  revert src. induction turns as [|k IH]; intro src; cbn [reroll];
    destruct (first_byte_is src x00 || first_byte_is src xff); only_entropy.
  apply IH.
Qed.

Lemma uses_only_entropy_pow_seed : uses_only_entropy pow_seed.
Proof.
  unfold pow_seed. apply uses_only_entropy_bind.
  - apply uses_only_entropy_randomBytes.
  - intros src s. unfold reroll_first_byte. apply uses_only_entropy_reroll.
Qed.

Lemma packTlv_over_uses_only_entropy (m : list (Z * Encoder)) tag encoder args :
  lookup m tag = Some encoder ->
  uses_only_entropy (encoder args) ->
  uses_only_entropy (packTlv_over m tag args).
Proof.
  intros Hm Henc. unfold packTlv_over. rewrite Hm. only_entropy.
Qed.

Lemma sub_tags_use_no_world tag :
  In tag [0x109; 0x52d; 0x124; 0x128; 0x16e] -> uses_only_entropy (packTlv tag []).
Proof.
  intros Htag s. rewrite (sub_tags_keep_state tag Htag s).
  apply same_but_entropy_refl.
Qed.

Lemma registry_uses_only_entropy :
  Forall (fun entry => fst entry <> 0x544 -> fst entry <> 0x548 ->
                       forall args, uses_only_entropy (snd entry args)) map.
Proof.
  pose proof sub_tags_use_no_world as Hsub.
  unfold map, registry.
  repeat (apply Forall_cons; [cbn [fst snd]; intros H544 H548 args|]);
    try apply Forall_nil.
  all: first
         [ exfalso; apply H544; reflexivity
         | exfalso; apply H548; reflexivity
         | match goal with |- uses_only_entropy (?enc _) => unfold enc end;
           solve [only_entropy; apply uses_only_entropy_tea_encrypt]
         | unfold enc_0x144; only_entropy;
           first [ apply Hsub; cbn; tauto | apply uses_only_entropy_tea_encrypt ] ].
Qed.

(** X11. The signer is called by no tag but 0x544 and the proof-of-work
    solver by no tag but 0x548: every other encoder, the composite 0x144
    with its five nested packer calls included, and the packer on it, leave
    the journal of signer and solver calls, the clock and the client as
    they were, whatever the outcome; at most random bytes are used up. *)
Theorem signer_and_solver_have_one_caller_each tag encoder args s :
  lookup map tag = Some encoder ->
  tag <> 0x544 -> tag <> 0x548 ->
  same_but_entropy s (snd (encoder args s))
  /\ same_but_entropy s (snd (packTlv tag args s)).
Proof.
  intros Hm H544 H548.
  assert (uses_only_entropy (encoder args)) as Henc.
  { pose proof registry_uses_only_entropy as Hall. rewrite Forall_forall in Hall.
    exact (Hall _ (lookup_In _ _ _ Hm) H544 H548 args). }
  split; [apply Henc|].
  rewrite packTlv_unfold.
  exact (packTlv_over_uses_only_entropy map tag encoder args Hm Henc s).
Qed.

End Effects.

(** ** Fallbacks and the signer *)

Section Fallbacks.
Context `{Externals}.



(** X5. With a version other than [-1] the signature tag 0x544 builds a
    salt, hands it with the current time to the signer, exactly once, and
    writes the signer's answer as its payload.  Version 2 salts with
    0, guid, sdk version, sub-command, 0; any other version with the 64-bit
    account number, guid, sdk version, sub-command.  A third argument is
    ignored. *)
Theorem salted_signature_calls_signer (v subCmd : Z) (more : list JsVal) s :
  let c := this s in
  let guid := tlv_field (Device.guid (device c)) in
  let sdkver := tlv_field (Buf (to_buffer (Apk.sdkver (apk c)))) in
  let salt :=
    if v =? 2
    then be_bytes 4 0 ++ guid ++ sdkver ++ be_bytes 4 subCmd ++ be_bytes 4 0
    else be_bytes 8 (uin c) ++ guid ++ sdkver ++ be_bytes 4 subCmd in
  let now := now_ms (world s) in
  v <> -1 ->
  0 <= subCmd <= 0xFFFFFFFF ->
  0 <= uin c <= 2 ^ 64 - 1 ->
  Z.of_nat (length (to_buffer (Device.guid (device c)))) <= 0xFFFF ->
  Z.of_nat (length (to_buffer (Apk.sdkver (apk c)))) <= 0xFFFF ->
  enc_0x544 (Num v :: Num subCmd :: more) s =
  (Return {| Writer.readable := sign now salt |}, called (CallSign now salt) s).
Proof.
  intros c guid sdkver salt now Hv Hsub Huin Hguid Hsdk.
  subst c guid sdkver now.
  unfold enc_0x544. cbn [arg nth]. cbv zeta. cbn [loosely_is strictly_is].
  replace (v =? -1) with false by (symmetry; apply Z.eqb_neq; exact Hv).
  assert ((if v =? 2
           then ret Writer.empty
                  >>= writeU32 (val 0)
                  >>= writeTlv (this_device Device.guid)
                  >>= writeTlv (this_apk (fun a => Buf (to_buffer (Apk.sdkver a))))
                  >>= writeU32 (lift (as_number (Num subCmd)))
                  >>= writeU32 (val 0)
           else ret Writer.empty
                  >>= writeU64 (gets uin)
                  >>= writeTlv (this_device Device.guid)
                  >>= writeTlv (this_apk (fun a => Buf (to_buffer (Apk.sdkver a))))
                  >>= writeU32 (lift (as_number (Num subCmd)))) s
          = (Return {| Writer.readable := salt |}, s)) as Hsalt.
  { unfold salt, writeU32, writeU64, writeTlv.
    destruct (v =? 2).
    - eapply eq_trans.
      + chain_by read_arg
          ltac:(first [ apply writeTlv_Return; assumption | writer_op ]).
      + unfold Writer.push, tlv_field. cbn [Writer.readable Writer.empty app].
        rewrite <- !app_assoc. reflexivity.
    - eapply eq_trans.
      + chain_by read_arg
          ltac:(first [ apply writeTlv_Return; assumption
                      | unfold Writer.writeU64; rewrite in_range_true by lia;
                        reflexivity
                      | writer_op ]).
      + unfold Writer.push, tlv_field. cbn [Writer.readable Writer.empty app].
        rewrite <- !app_assoc. reflexivity. }
  cbv beta. rewrite (bind_Return _ _ _ _ _ Hsalt). cbv beta.
  unfold writeBytes.
  eapply step_Return;
    [ reflexivity
    | rewrite (bind_Return Date_now _ s (now_ms (world s)) s eq_refl);
      rewrite (bind_Return _ _ _ _ _
                 (read_Return {| Writer.readable := salt |} s));
      reflexivity
    | reflexivity ].
Qed.

End Fallbacks.

(** ** Tags with random bytes and the clock *)

Lemma to_int32_range (z : Z) : - 2 ^ 31 <= to_int32 z <= 2 ^ 31 - 1.
Proof.
  unfold to_int32. pose proof (Z.mod_pos_bound (z + 2 ^ 31) (2 ^ 32) ltac:(lia)). lia.
Qed.

(** The signed wrap-around keeps the low 32 bits, which are what is written. *)
Lemma be_bytes_to_int32 (z : Z) : be_bytes 4 (to_int32 z) = be_bytes 4 z.
Proof.
  unfold to_int32.
  rewrite (Z.mod_eq (z + 2 ^ 31) (2 ^ 32)) by lia.
  replace (z + 2 ^ 31 - 2 ^ 32 * ((z + 2 ^ 31) / 2 ^ 32) - 2 ^ 31)
    with (z + (- ((z + 2 ^ 31) / 2 ^ 32)) * 256 ^ Z.of_nat 4)
    by (change (256 ^ Z.of_nat 4) with (2 ^ 32); lia).
  apply be_bytes_add_high. lia.
Qed.

Lemma decimal_digits_length (fuel : nat) (n : Z) :
  (length (decimal_digits fuel n) <= fuel)%nat.
Proof.
  revert n. induction fuel as [|f IH]; intro n; cbn [decimal_digits length].
  - lia.
  - destruct (n <? 10); [cbn; lia|].
    rewrite length_app. cbn [length]. specialize (IH (n / 10)). lia.
Qed.

(** [String(n)] of a number below 2^64 is short enough for a length prefix. *)
Lemma String_of_number_fits (n : Z) :
  0 <= n <= 2 ^ 64 - 1 ->
  Z.of_nat (length (to_buffer (Str (String_of_number n)))) <= 0xFFFF.
Proof.
  intros Hn. cbn [to_buffer].
  pose proof (utf8_length_le (String_of_number n)) as Hu.
  unfold String_of_number in *.
  destruct (Z.ltb_spec n 0) as [Hneg|_]; [lia|].
  pose proof (decimal_digits_length (S (Z.to_nat (Z.log2 n))) n) as Hd.
  assert (Z.log2 n < 64) as Hlog.
  { destruct (Z.eq_dec n 0) as [->|Hnz]; [cbn; lia|].
    apply Z.log2_lt_pow2; lia. }
  pose proof (Z.log2_nonneg n). lia.
Qed.

Section Layouts.
Context `{Externals}.

Lemma unix_seconds_Return s :
  unix_seconds s = (Return (to_int32 (Z.quot (now_ms (world s)) 1000)), s).
Proof. reflexivity. Qed.

(** X8. Tag 0x01 writes the version 1, four fresh random bytes, the account
    number, the Unix time in seconds, the ip address and a zero; the time
    field holds the low 32 bits of the seconds, so no clock value makes the
    encoder throw.  Exactly four bytes of entropy are used. *)
Theorem network_tag_layout args s :
  let c := this s in
  (4 <= length (entropy (world s)))%nat ->
  0 <= uin c <= 0xFFFFFFFF ->
  0 <= now_ms (world s) ->
  enc_0x01 args s =
  (Return {| Writer.readable :=
     be_bytes 2 1
       ++ firstn 4 (entropy (world s))
       ++ be_bytes 4 (uin c)
       ++ be_bytes 4 (now_ms (world s) / 1000)
       ++ to_buffer (Device.ip_address (device c))
       ++ be_bytes 2 0 |}, drained 4 s).
Proof.
  intros c Hent Huin Hnow. subst c.
  rewrite <- (be_bytes_to_int32 (now_ms (world s) / 1000)).
  rewrite <- (Z.quot_div_nonneg (now_ms (world s)) 1000) by lia.
  unfold enc_0x01, writeU16, writeU32, write32, writeBytes.
  eapply eq_trans.
  - chain_by
      ltac:(first [ apply randomBuf_drained; assumption
                  | apply unix_seconds_Return
                  | read_arg ])
      ltac:(first [ apply write32_Return; apply to_int32_range
                  | apply writeU32_Return; cbn [this drained]; lia
                  | writer_op ]).
  - unfold Writer.push. cbn [Writer.readable Writer.empty app to_buffer].
    rewrite <- !app_assoc. reflexivity.
Qed.

(** X9. Tag 0x400 writes the version 1, the 64-bit account number, the
    guid, sixteen fresh random bytes, the constants 1 and 16 and the low 32
    bits of the Unix time in seconds; sixteen bytes of entropy are used. *)
Theorem session_ticket_tag_layout args s :
  let c := this s in
  (16 <= length (entropy (world s)))%nat ->
  0 <= uin c <= 2 ^ 64 - 1 ->
  0 <= now_ms (world s) ->
  enc_0x400 args s =
  (Return {| Writer.readable :=
     be_bytes 2 1
       ++ be_bytes 8 (uin c)
       ++ to_buffer (Device.guid (device c))
       ++ firstn 16 (entropy (world s))
       ++ be_bytes 4 1
       ++ be_bytes 4 16
       ++ be_bytes 4 (now_ms (world s) / 1000) |}, drained 16 s).
Proof.
  intros c Hent Huin Hnow. subst c.
  rewrite <- (be_bytes_to_int32 (now_ms (world s) / 1000)).
  rewrite <- (Z.quot_div_nonneg (now_ms (world s)) 1000) by lia.
  unfold enc_0x400, writeU16, writeU64, write32, writeBytes.
  eapply eq_trans.
  - chain_by
      ltac:(first [ apply randomBuf_drained; assumption
                  | apply unix_seconds_Return
                  | read_arg ])
      ltac:(first [ apply write32_Return; apply to_int32_range
                  | unfold Writer.writeU64; rewrite in_range_true by lia;
                    reflexivity
                  | writer_op ]).
  - unfold Writer.push, Buffer_alloc.
    cbn [Writer.readable Writer.empty app to_buffer repeat].
    rewrite <- !app_assoc, ?app_nil_r. reflexivity.
Qed.

Lemma password_body_Return (pass : bytes) (more : list JsVal) s :
  let c := this s in
  (4 <= length (entropy (world s)))%nat ->
  0 <= Apk.ssover (apk c) <= 0xFFFFFFFF ->
  0 <= Apk.appid (apk c) <= 0xFFFFFFFF ->
  0 <= Apk.subid (apk c) <= 0xFFFFFFFF ->
  0 <= uin c <= 2 ^ 64 - 1 ->
  (new_Writer
     >>= writeU16 (val 4)
     >>= writeBytes (randomBuf 4)
     >>= writeU32 (this_apk Apk.ssover)
     >>= writeU32 (this_apk Apk.appid)
     >>= writeU32 (val 0)
     >>= writeU64 (gets uin)
     >>= write32 unix_seconds
     >>= writeBytes (val (Buf (Buffer_alloc 4)))
     >>= writeU8 (val 1)
     >>= writeBytes (lift (as_data (arg 0 (Data (Buf pass) :: more))))
     >>= writeBytes (k <- this_sig Sig.tgtgt ;; ret (Buf k))
     >>= writeU32 (val 0)
     >>= writeU8 (val 1)
     >>= writeBytes (this_device Device.guid)
     >>= writeU32 (this_apk Apk.subid)
     >>= writeU32 (val 1)
     >>= writeTlv (u <- gets uin ;; ret (Str (String_of_number u)))
     >>= writeU16 (val 0)
     >>= read) s
  = (Return (password_body s pass), drained 4 s).
Proof.
  intros c Hent Hsso Happ Hsub Huin. subst c.
  eapply eq_trans.
  - eapply bind_Return.
    unfold writeU8, writeU16, writeU32, writeU64, write32, writeBytes, writeTlv.
    chain_by
      ltac:(first [ apply randomBuf_drained; assumption
                  | apply unix_seconds_Return
                  | read_arg ])
      ltac:(first [ apply write32_Return; apply to_int32_range
                  | unfold Writer.writeU64; rewrite in_range_true
                      by (cbn [this drained]; lia);
                    reflexivity
                  | apply writeU32_Return; cbn [this drained]; lia
                  | apply writeTlv_Return; apply String_of_number_fits;
                    cbn [this drained]; lia
                  | writer_op ]).
  - rewrite read_Return.
    unfold password_body, Writer.push, tlv_field.
    cbn [Writer.readable Writer.empty app to_buffer this drained arg nth].
    rewrite <- !app_assoc. reflexivity.
Qed.

(** X6. Tag 0x106 encrypts its body (version 4, four random bytes, the
    application fields, the account number, the time, the password hash, the
    tgtgt key, the guid, the account number in decimal) with the cipher under
    the key md5(password hash, four zero bytes, 32-bit account number), and
    writes the ciphertext as its payload.  The four bytes of the body are
    drawn first, the filler of the cipher after them, and nothing else of
    the world is touched. *)
Theorem password_tag_payload (pass : bytes) (more : list JsVal) s :
  let c := this s in
  let body := password_body s pass in
  let fill := tea_filler (length body) in
  let key := md5 (pass ++ Buffer_alloc 4 ++ be_bytes 4 (uin c)) in
  (4 + fill <= length (entropy (world s)))%nat ->
  0 <= Apk.ssover (apk c) <= 0xFFFFFFFF ->
  0 <= Apk.appid (apk c) <= 0xFFFFFFFF ->
  0 <= Apk.subid (apk c) <= 0xFFFFFFFF ->
  0 <= uin c <= 0xFFFFFFFF ->
  enc_0x106 (Data (Buf pass) :: more) s =
  (Return {| Writer.readable :=
     tea_blocks (firstn fill (skipn 4 (entropy (world s)))) body key |},
   drained (4 + fill) s).
Proof.
  intros c body fill key Hent Hsso Happ Hsub Huin. subst c.
  unfold enc_0x106. cbv zeta.
  rewrite (bind_Return _ _ _ _ _
             (password_body_Return pass more s ltac:(lia) Hsso Happ Hsub ltac:(lia))).
  fold body.
  unfold bind at 1, gets at 1. unfold bind at 1, lift at 1, Buffer_writeUInt32BE.
  cbn [this drained].
  assert ((0 <=? uin (this s)) && (uin (this s) <=? 0xFFFFFFFF) = true) as ->
    by (apply andb_true_intro; split; apply Z.leb_le; lia).
  cbn [arg nth as_data as_buffer]. unfold bind at 1, lift at 1.
  unfold bind at 1, lift at 1. fold key.
  assert (tea_encrypt body key (drained 4 s)
          = (Return (tea_blocks (firstn fill (skipn 4 (entropy (world s)))) body key),
             drained (4 + fill) s)) as Htea.
  { rewrite tea_encrypt_Return
      by (cbn [drained world entropy]; rewrite length_skipn; fold fill; lia).
    fold fill. rewrite drained_drained. reflexivity. }
  change (drained 4 s) with
    {| this := this s;
       world := {| entropy := skipn 4 (entropy (world s));
                   now_ms := now_ms (world s);
                   journal := journal (world s) |} |} in Htea.
  unfold writeBytes.
  eapply eq_trans.
  - eapply step_Return; [reflexivity | | reflexivity].
    rewrite (bind_Return _ _ _ _ _ Htea). reflexivity.
  - reflexivity.
Qed.

(** X7. An account number that needs more than 32 bits passes the 64-bit
    field of the body but not the 32-bit field of the key: tag 0x106 then
    throws a RangeError, after its four random bytes were drawn. *)
Theorem password_tag_rejects_wide_uin (pass : bytes) (more : list JsVal) s :
  let c := this s in
  (4 <= length (entropy (world s)))%nat ->
  0 <= Apk.ssover (apk c) <= 0xFFFFFFFF ->
  0 <= Apk.appid (apk c) <= 0xFFFFFFFF ->
  0 <= Apk.subid (apk c) <= 0xFFFFFFFF ->
  0xFFFFFFFF < uin c <= 2 ^ 64 - 1 ->
  enc_0x106 (Data (Buf pass) :: more) s = (Throw RangeError, drained 4 s).
Proof.
  intros c Hent Hsso Happ Hsub Huin. subst c. unfold enc_0x106. cbv zeta.
  rewrite (bind_Return _ _ _ _ _
             (password_body_Return pass more s Hent Hsso Happ Hsub ltac:(lia))).
  unfold bind, gets, lift, Buffer_writeUInt32BE. cbn [this drained].
  assert ((0 <=? uin (this s)) && (uin (this s) <=? 0xFFFFFFFF) = false) as ->
    by (apply andb_false_intro2, Z.leb_gt; lia).
  reflexivity.
Qed.

End Layouts.

(** ** Truncation and the sixteen-bit length *)

Lemma tlv_field_slice0_length (n : nat) (d : BinaryLike) :
  (length (tlv_field (slice0 n d)) <= 2 + 4 * n)%nat.
Proof.
  unfold tlv_field. rewrite length_app, length_be_bytes.
  pose proof (slice0_length_le n d). lia.
Qed.

Section Bounds.
Context `{Externals}.

Lemma packTlv_RangeError tag encoder args s t s' :
  lookup map tag = Some encoder ->
  encoder args s = (Return t, s') ->
  0xFFFF < Z.of_nat (length (Writer.readable t)) ->
  packTlv tag args s = (Throw RangeError, s').
Proof.
  intros Hm Henc Hlen. rewrite packTlv_unfold.
  rewrite (packTlv_over_Return map tag encoder args s t s' Hm Henc)
    by (pose proof (lookup_registry_range _ _ _ Hm); lia).
  unfold Writer.readableLength.
  destruct (Z.leb_spec (Z.of_nat (length (Writer.readable t))) 0xFFFF); [lia|].
  reflexivity.
Qed.

(** Packing a short payload: the block and its size. *)
Lemma packTlv_short tag encoder args s t s' (bound : nat) :
  lookup map tag = Some encoder ->
  encoder args s = (Return t, s') ->
  (length (Writer.readable t) <= bound)%nat ->
  (bound <= 1000)%nat ->
  exists b, packTlv tag args s = (Return b, s') /\ (length b <= 4 + bound)%nat.
Proof.
  intros Hm Henc Hlen Hbound. rewrite packTlv_unfold.
  rewrite (packTlv_over_Return map tag encoder args s t s' Hm Henc)
    by (pose proof (lookup_registry_range _ _ _ Hm); lia).
  unfold Writer.readableLength.
  destruct (Z.leb_spec (Z.of_nat (length (Writer.readable t))) 0xFFFF); [|lia].
  eexists. split; [reflexivity|].
  rewrite !length_app, !length_be_bytes. lia.
Qed.

Lemma lookup_map_truncating :
  lookup map 0x142 = Some enc_0x142 /\ lookup map 0x202 = Some enc_0x202.
Proof.
  unfold map, registry. cbn [lookup Z.eqb Pos.eqb]. split; reflexivity.
Qed.

Ltac sliced_chain :=
  chain_by read_arg ltac:(first [ apply writeTlv_slice0; lia | writer_op ]).

Ltac sliced_bound :=
  unfold Writer.push; cbn [Writer.readable Writer.empty app];
  rewrite ?length_app, ?length_be_bytes;
  repeat match goal with
         | |- context [length (tlv_field (slice0 ?n ?d))] =>
             let Hb := fresh "Hb" in
             pose proof (tlv_field_slice0_length n d) as Hb;
             generalize dependent (length (tlv_field (slice0 n d)))
         end;
  intros; lia.

Lemma enc_0x124_Return args s :
  exists t, enc_0x124 args s = (Return t, s) /\ (length (Writer.readable t) <= 268)%nat.
Proof.
  eexists. split.
  - unfold enc_0x124, writeTlv, writeU16. sliced_chain.
  - sliced_bound.
Qed.

Lemma enc_0x128_Return args s :
  exists t, enc_0x128 args s = (Return t, s) /\ (length (Writer.readable t) <= 271)%nat.
Proof.
  eexists. split.
  - unfold enc_0x128, writeTlv, writeU16, writeU8, writeU32. sliced_chain.
  - sliced_bound.
Qed.

Lemma enc_0x142_Return args s :
  exists t, enc_0x142 args s = (Return t, s) /\ (length (Writer.readable t) <= 132)%nat.
Proof.
  eexists. split.
  - unfold enc_0x142, writeTlv, writeU16. sliced_chain.
  - sliced_bound.
Qed.

Lemma enc_0x202_Return args s :
  exists t, enc_0x202 args s = (Return t, s) /\ (length (Writer.readable t) <= 196)%nat.
Proof.
  eexists. split.
  - unfold enc_0x202, writeTlv. sliced_chain.
  - sliced_bound.
Qed.

Lemma truncating_pack_0x124 s : exists b, packTlv 0x124 [] s = (Return b, s).
Proof.
  destruct lookup_map_leaf as (_ & _ & H124 & _ & _).
  destruct (enc_0x124_Return [] s) as (t & E & L).
  destruct (packTlv_short _ _ _ _ _ _ 268 H124 E L ltac:(lia)) as (b & Hb & _).
  exists b. exact Hb.
Qed.

Lemma truncating_pack_0x128 s : exists b, packTlv 0x128 [] s = (Return b, s).
Proof.
  destruct lookup_map_leaf as (_ & _ & _ & H128 & _).
  destruct (enc_0x128_Return [] s) as (t & E & L).
  destruct (packTlv_short _ _ _ _ _ _ 271 H128 E L ltac:(lia)) as (b & Hb & _).
  exists b. exact Hb.
Qed.

(** X12. The tags that cut their fields with [slice] can always be packed:
    for every client, however long its device and application strings, tags
    0x124, 0x128, 0x142 and 0x202 return a block of at most 272, 275, 136 and
    200 bytes and leave the state untouched. *)
Theorem truncating_tags_always_pack args s :
  (exists b, packTlv 0x124 args s = (Return b, s) /\ (length b <= 272)%nat)
  /\ (exists b, packTlv 0x128 args s = (Return b, s) /\ (length b <= 275)%nat)
  /\ (exists b, packTlv 0x142 args s = (Return b, s) /\ (length b <= 136)%nat)
  /\ (exists b, packTlv 0x202 args s = (Return b, s) /\ (length b <= 200)%nat).
Proof.
  destruct lookup_map_leaf as (_ & _ & H124 & H128 & _).
  destruct lookup_map_truncating as (H142 & H202).
  destruct (enc_0x124_Return args s) as (t1 & E1 & L1).
  destruct (enc_0x128_Return args s) as (t2 & E2 & L2).
  destruct (enc_0x142_Return args s) as (t3 & E3 & L3).
  destruct (enc_0x202_Return args s) as (t4 & E4 & L4).
  split; [|split; [|split]].
  - exact (packTlv_short _ _ _ _ _ _ 268 H124 E1 L1 ltac:(lia)).
  - exact (packTlv_short _ _ _ _ _ _ 271 H128 E2 L2 ltac:(lia)).
  - exact (packTlv_short _ _ _ _ _ _ 132 H142 E3 L3 ltac:(lia)).
  - exact (packTlv_short _ _ _ _ _ _ 196 H202 E4 L4 ltac:(lia)).
Qed.

(** A sub-tag whose encoder only appends bytes is packed or, when those are
    too many, refused with a RangeError; the state stays. *)
Lemma packTlv_or_RangeError tag encoder s t :
  lookup map tag = Some encoder ->
  encoder [] s = (Return t, s) ->
  (exists b, packTlv tag [] s = (Return b, s))
  \/ packTlv tag [] s = (Throw RangeError, s).
Proof.
  intros Hm Henc. rewrite packTlv_unfold.
  rewrite (packTlv_over_Return map tag encoder [] s t s Hm Henc)
    by (pose proof (lookup_registry_range _ _ _ Hm); lia).
  destruct (Writer.readableLength t <=? 0xFFFF); [left; eexists|right]; reflexivity.
Qed.

Lemma step_arg_Throw {A} (m : M Writer.t) (op : A -> Writer.t -> outcome Writer.t)
  (a : M A) s w s1 e s2 :
  m s = (Return w, s1) ->
  a s1 = (Throw e, s2) ->
  (m >>= call op a) s = (Throw e, s2).
Proof.
  intros Hm Ha. rewrite (bind_Return _ _ _ _ _ Hm).
  unfold call. apply bind_Throw. exact Ha.
Qed.

Lemma sub_pack_Return tag s b :
  packTlv tag [] s = (Return b, s) ->
  (x <- packTlv tag [] ;; ret (Buf x)) s = (Return (Buf b), s).
Proof.
  intros Hrun. rewrite (bind_Return _ _ _ _ _ Hrun). reflexivity.
Qed.

Lemma sub_pack_Throw tag s e :
  packTlv tag [] s = (Throw e, s) ->
  (x <- packTlv tag [] ;; ret (Buf x)) s = (Throw e, s).
Proof.
  intros Hrun. apply bind_Throw. exact Hrun.
Qed.

(** X13. The composite tag 0x144 inherits the sixteen-bit limit of its
    sub-tags: tag 0x16e inside it writes the model name in full, so a model
    name longer than 0xFFFF bytes makes tag 0x144 throw a RangeError (and the
    packer with it), although tag 0x128 beside it cuts the same name to 32
    characters.  The state is left as it was. *)
Theorem composite_tag_fails_on_long_model args s :
  0xFFFF < Z.of_nat (length (to_buffer (Device.model (device (this s))))) ->
  enc_0x144 packTlv args s = (Throw RangeError, s)
  /\ packTlv 0x144 args s = (Throw RangeError, s).
Proof.
  intros Hlong.
  destruct lookup_map_leaf as (H109 & H52d & H124 & H128 & H16e).
  assert (enc_0x144 packTlv args s = (Throw RangeError, s)) as Hrun.
  { assert (packTlv 0x16e [] s = (Throw RangeError, s)) as F5.
    { apply (packTlv_RangeError 0x16e enc_0x16e [] s
               {| Writer.readable := to_buffer (Device.model (device (this s))) |} s
               H16e); [reflexivity | exact Hlong]. }
    destruct (packTlv_or_RangeError 0x109 enc_0x109 s _ H109 eq_refl) as [[b1 R1]|F1];
    destruct (packTlv_or_RangeError 0x52d enc_0x52d s _ H52d eq_refl) as [[b2 R2]|F2];
    destruct (truncating_pack_0x124 s) as [b3 R3];
    destruct (truncating_pack_0x128 s) as [b4 R4];
    unfold enc_0x144, writeBytes, writeU16;
    apply bind_Throw;
    repeat first
      [ eapply step_arg_Throw;
        [ chain_by ltac:(first [ apply sub_pack_Return; eassumption | read_arg ])
            writer_op
        | apply sub_pack_Throw; eassumption ]
      | apply bind_Throw ]. }
  split; [exact Hrun|].
  rewrite packTlv_unfold. unfold packTlv_over, map.
  rewrite lookup_registry_0x144. apply bind_Throw. exact Hrun.
Qed.

End Bounds.

(** ** The seed loop of the proof-of-work tag *)

Lemma randomBytes_inv_drained (n : nat) s (r : bytes) s' :
  crypto_randomBytes n s = (Return r, s') ->
  (n <= length (entropy (world s)))%nat
  /\ r = firstn n (entropy (world s)) /\ s' = drained n s.
Proof.
  unfold crypto_randomBytes. cbv zeta.
  destruct (Nat.leb_spec n (length (entropy (world s)))) as [Hn|Hn]; [|discriminate].
  intros [= <- <-]. repeat split. exact Hn.
Qed.

Lemma first_byte_excluded (b : byte) (rest : bytes) :
  first_byte_is (b :: rest) x00 || first_byte_is (b :: rest) xff = excluded b.
Proof. reflexivity. Qed.

(** What the loop has done when it ends: it took some bytes of entropy and
    nothing else, the seed kept its length and all bytes but the first, and
    the first is admissible. *)
Lemma reroll_postcondition (turns : nat) (src : bytes) s (src' : bytes) s' :
  reroll turns src s = (Return src', s') ->
  exists n,
    s' = drained n s
    /\ (n <= length (entropy (world s)))%nat
    /\ length src' = length src
    /\ tl src' = tl src
    /\ first_byte_is src' x00 = false
    /\ first_byte_is src' xff = false.
Proof.
  revert src s. induction turns as [|k IH]; intros src s; cbn [reroll];
    destruct (first_byte_is src x00 || first_byte_is src xff) eqn:Hbad.
  - discriminate.
  - intros [= <- <-]. apply orb_false_elim in Hbad as [H0 Hff].
    exists 0%nat. rewrite drained_O. repeat split; try assumption. lia.
  - unfold bind.
    destruct (crypto_randomBytes 1 s) as [[r|e|] s1] eqn:Hr; try discriminate.
    intros Hrun. apply randomBytes_inv_drained in Hr as (Hlen1 & -> & ->).
    apply IH in Hrun as (n & -> & Hn & Hlen & Htl & H0 & Hff).
    exists (1 + n)%nat. rewrite drained_drained.
    assert (length (entropy (world (drained 1 s)))
            = (length (entropy (world s)) - 1)%nat) as Hd
      by (cbn [drained world entropy]; apply length_skipn).
    split; [reflexivity|]. split; [lia|].
    destruct src as [|c src]; [discriminate Hbad|].
    destruct (entropy (world s)) as [|b ent]; [cbn in Hlen1; lia|].
    cbn [firstn] in Hlen, Htl. repeat split; assumption.
  - intros [= <- <-]. apply orb_false_elim in Hbad as [H0 Hff].
    exists 0%nat. rewrite drained_O. repeat split; try assumption. lia.
Qed.

(** X14. Whenever the seed of tag 0x548 is produced it has 128 bytes, its
    first byte is neither 0x00 nor 0xFF, its other 127 bytes are those of the
    first draw, and producing it took at least 128 bytes of entropy and
    nothing else: client, clock and journal are as before. *)
Theorem pow_seed_postcondition s (src : bytes) s' :
  pow_seed s = (Return src, s') ->
  length src = 128%nat
  /\ first_byte_is src x00 = false
  /\ first_byte_is src xff = false
  /\ tl src = firstn 127 (skipn 1 (entropy (world s)))
  /\ exists n, (128 <= n <= length (entropy (world s)))%nat /\ s' = drained n s.
Proof.
  unfold pow_seed, bind.
  destruct (crypto_randomBytes 128 s) as [[src0|e|] s0] eqn:Hdraw; try discriminate.
  apply randomBytes_inv_drained in Hdraw as (Hlen0 & -> & ->).
  unfold reroll_first_byte. intros Hrun.
  apply reroll_postcondition in Hrun as (n & -> & Hn & Hlen & Htl & H0 & Hff).
  assert (length (entropy (world (drained 128 s)))
          = (length (entropy (world s)) - 128)%nat) as Hd
    by (cbn [drained world entropy]; apply length_skipn).
  rewrite length_firstn, Nat.min_l in Hlen by exact Hlen0.
  split; [exact Hlen|]. split; [exact H0|]. split; [exact Hff|]. split.
  - rewrite Htl. destruct (entropy (world s)) as [|b ent]; [cbn in Hlen0; lia|].
    reflexivity.
  - exists (128 + n)%nat. rewrite drained_drained. split; [lia | reflexivity].
Qed.

Lemma reroll_redraws (bads : bytes) (g : byte) (rest : bytes) :
  Forall (fun b => excluded b = true) bads ->
  excluded g = false ->
  forall turns (c : byte) (tail : bytes) s,
    excluded c = true ->
    entropy (world s) = bads ++ g :: rest ->
    (length bads < turns)%nat ->
    reroll turns (c :: tail) s
    = (Return (g :: tail), drained (length bads + 1) s).
Proof.
  intros Hbads Hg. induction Hbads as [|b bads Hb _ IH];
    intros turns c tail s Hc Hent Hturns.
  - destruct turns as [|k]; [cbn in Hturns; lia|].
    cbn [reroll]. rewrite first_byte_excluded, Hc.
    rewrite (bind_Return _ _ _ _ _
               (randomBytes_drained 1 s ltac:(rewrite Hent; cbn; lia))).
    rewrite Hent. cbn [app firstn tl length Nat.add].
    destruct k; cbn [reroll]; rewrite first_byte_excluded, Hg; reflexivity.
  - destruct turns as [|k]; [cbn in Hturns; lia|].
    cbn [reroll]. rewrite first_byte_excluded, Hc.
    rewrite (bind_Return _ _ _ _ _
               (randomBytes_drained 1 s ltac:(rewrite Hent; cbn; lia))).
    rewrite Hent. cbn [app firstn tl].
    rewrite (IH k b tail (drained 1 s) Hb).
    + rewrite drained_drained. cbn [length]. reflexivity.
    + cbn [drained world entropy]. rewrite Hent. reflexivity.
    + cbn [length] in Hturns. lia.
Qed.

(** X15. When the first draw starts with 0x00 or 0xFF the loop draws single
    bytes until one is neither: that byte becomes the first byte of the
    seed, the 127 bytes behind it stay, and every byte drawn on the way is
    used up. *)
Theorem pow_seed_redraws_first_byte s (c : byte) (tail bads : bytes)
  (g : byte) (rest : bytes) :
  entropy (world s) = (c :: tail) ++ bads ++ g :: rest ->
  length tail = 127%nat ->
  excluded c = true ->
  Forall (fun b => excluded b = true) bads ->
  excluded g = false ->
  pow_seed s = (Return (g :: tail), drained (128 + length bads + 1) s)
  /\ entropy (world (drained (128 + length bads + 1) s)) = rest.
Proof.
  intros Hent Htail Hc Hbads Hg.
  assert (firstn 128 (entropy (world s)) = c :: tail) as Hfirst.
  { rewrite Hent, firstn_app.
    replace (128 - length (c :: tail))%nat with 0%nat by (cbn [length]; lia).
    rewrite firstn_O, app_nil_r. apply firstn_all2. cbn [length]. lia. }
  assert (skipn 128 (entropy (world s)) = bads ++ g :: rest) as Hskip.
  { rewrite Hent, skipn_app.
    replace (128 - length (c :: tail))%nat with 0%nat by (cbn [length]; lia).
    rewrite skipn_O, skipn_all2 by (cbn [length]; lia). reflexivity. }
  split.
  - unfold pow_seed.
    rewrite (bind_Return _ _ _ _ _
               (randomBytes_drained 128 s
                  ltac:(rewrite Hent, length_app; cbn [length]; lia))).
    rewrite Hfirst. unfold reroll_first_byte.
    rewrite (reroll_redraws bads g rest Hbads Hg _ c tail (drained 128 s) Hc).
    + rewrite drained_drained, Nat.add_assoc. reflexivity.
    + cbn [drained world entropy]. exact Hskip.
    + cbn [drained world entropy]. rewrite Hskip, length_app. cbn [length]. lia.
  - cbn [drained world entropy].
    replace (128 + length bads + 1)%nat with ((length bads + 1) + 128)%nat by lia.
    rewrite <- skipn_skipn, Hskip, skipn_app.
    replace (length bads + 1 - length bads)%nat with 1%nat by lia.
    rewrite skipn_all2 by lia. reflexivity.
Qed.

(** * Concrete runs

    The theorems above at the sample session of [Demo], and the inputs at
    which the code parts from a neighbouring reading of it. *)

Section Runs.
Existing Instance Demo.externals.

(** C1 at tag 0x08, whose payload is eight fixed bytes. *)
Lemma packTlv_frames_payload_witness :
  packTlv 0x08 [] Demo.state =
  (Return [x00; x08; x00; x08; x00; x00; x00; x00; x08; x04; x00; x00],
   Demo.state).
Proof.
  refine (proj1 (packTlv_frames_payload 0x08 enc_0x08 [] Demo.state
                   {| Writer.readable := [x00; x00; x00; x00; x08; x04; x00; x00] |}
                   Demo.state _ _) _).
  - reflexivity.
  - vm_compute. reflexivity.
  - vm_compute. discriminate.
Defined.

(** C5 at tag 0x02, which the registry does not have. *)
Lemma packTlv_unknown_tag_witness :
  packTlv 0x02 [] Demo.state = (Throw TypeError, Demo.state).
Proof.
  apply (packTlv_unknown_tag 0x02 [] Demo.state). reflexivity.
Defined.

(** The error thrown for tag 0x02 is a TypeError, not an error of the name
    the claim gives. *)
Lemma unknown_tag_throws_TypeError :
  exists e, fst (packTlv 0x02 [] Demo.state) = Throw e
            /\ error_name e <> "UnknownTagError"%string.
Proof.
  exists TypeError. split; [reflexivity | discriminate].
Qed.

(** C6 at tag 0x154 with the counter at 41: 42 is written, 41 stays. *)
Lemma encoders_only_read_session_witness :
  this (snd (enc_0x154 [] Demo.state)) = Demo.client
  /\ this (snd (packTlv 0x154 [] Demo.state)) = Demo.client
  /\ (0x154 = 0x154 ->
      enc_0x154 [] Demo.state =
      (if Writer.in_range 0 0xFFFFFFFF (Sig.seq (sig (this Demo.state)) + 1)
       then Return {| Writer.readable :=
              be_bytes 4 (Sig.seq (sig (this Demo.state)) + 1) |}
       else Throw RangeError, Demo.state)).
Proof.
  apply (encoders_only_read_session 0x154 enc_0x154 [] Demo.state). reflexivity.
Defined.

(** C4 at the sample session. *)
Lemma composite_device_info_payload_witness :
  exists t1 t2 t3 t4 t5,
    fst (enc_0x109 [] Demo.state) = Return t1
    /\ fst (enc_0x52d [] Demo.state) = Return t2
    /\ fst (enc_0x124 [] Demo.state) = Return t3
    /\ fst (enc_0x128 [] Demo.state) = Return t4
    /\ fst (enc_0x16e [] Demo.state) = Return t5
    /\ let inner :=
         be_bytes 2 5
           ++ tlv_block 0x109 (Writer.readable t1)
           ++ tlv_block 0x52d (Writer.readable t2)
           ++ tlv_block 0x124 (Writer.readable t3)
           ++ tlv_block 0x128 (Writer.readable t4)
           ++ tlv_block 0x16e (Writer.readable t5) in
       let fill := tea_filler (length inner) in
       enc_0x144 packTlv [] Demo.state =
       (Return {| Writer.readable :=
          tea_blocks (firstn fill (entropy (world Demo.state))) inner
                     (Sig.tgtgt (sig (this Demo.state))) |},
        drained fill Demo.state).
Proof.
  do 5 eexists.
  assert (forall A B C D E F : Prop,
            A -> B -> C -> D -> E -> (A -> B -> C -> D -> E -> F) ->
            A /\ B /\ C /\ D /\ E /\ F) as Hand by tauto.
  apply Hand; [vm_compute; reflexivity .. |].
  intros H1 H2 H3 H4 H5.
  refine (proj2 (proj2 (proj2 (proj2 (proj2 (proj2
            (composite_device_info_payload [] Demo.state _ _ _ _ _
               H1 H2 H3 H4 H5 _ _))))))).
  - repeat constructor; vm_compute; discriminate.
  - apply Nat.leb_le. vm_compute. reflexivity.
Defined.

(** C7 at a forty-character ASCII model name against the cap of 32. *)
Lemma device_fields_are_sliced_witness :
  tlv_field (slice0 32 (Str (lit "Redmi Note 12 Turbo Harry Potter Edition")))
  = be_bytes 2 32
      ++ firstn 32 (to_buffer (Str (lit "Redmi Note 12 Turbo Harry Potter Edition"))).
Proof.
  refine (proj2 (proj2 (device_fields_are_sliced [] Demo.state 32
            (Str (lit "Redmi Note 12 Turbo Harry Potter Edition")) _ _))).
  - unfold byte_per_unit. vm_compute.
    repeat (apply Forall_cons; [split; [discriminate | reflexivity]|]).
    apply Forall_nil.
  - vm_compute. lia.
Defined.

(** A model name of forty CJK characters is cut to 32 characters, which are
    96 bytes: the field is neither 32 bytes long nor the first 32 bytes of
    the name. *)
Lemma cjk_model_field_exceeds_cap :
  exists payload,
    fst (enc_0x128 [] Demo.cjk_state) = Return {| Writer.readable := payload |}
    /\ length (to_buffer (Device.model (device (this Demo.cjk_state)))) = 120%nat
    /\ firstn 98 (skipn 9 payload) = be_bytes 2 96 ++ utf8 (repeat 0x4E2D 32)
    /\ length (utf8 (repeat 0x4E2D 32)) = 96%nat
    /\ firstn 98 (skipn 9 payload)
       <> be_bytes 2 32
            ++ firstn 32 (to_buffer (Device.model (device (this Demo.cjk_state)))).
Proof.
  eexists. split; [vm_compute; reflexivity|].
  split; [vm_compute; reflexivity|].
  split; [vm_compute; reflexivity|].
  split; [vm_compute; reflexivity|].
  vm_compute. discriminate.
Qed.

(** C10 at the sample profile, whose sub id is 537164840. *)
Lemma client_version_sub_id_witness :
  enc_0x100 [] Demo.state = enc_0x100 [Num 0] Demo.state
  /\ enc_0x100 [Num 7] Demo.state =
     (Return {| Writer.readable :=
        be_bytes 2 1 ++ be_bytes 4 20 ++ be_bytes 4 16 ++ be_bytes 4 7
          ++ be_bytes 4 0 ++ be_bytes 4 16724722 |}, Demo.state).
Proof.
  destruct (client_version_sub_id Demo.state) as [Hdefault Hgiven];
    try (vm_compute; split; discriminate).
  split.
  - rewrite (Hdefault [] (or_introl eq_refl)), (Hdefault [Num 0] (or_intror eq_refl)).
    reflexivity.
  - apply (Hgiven [Num 7] 7); [reflexivity | discriminate | lia].
Defined.

(** C2 and C3 at the seed 0x01 00 ... 00. *)
Lemma pow_target_and_digest_witness :
  pow_dst Demo.seed = Some (be_bytes 128 (be_value Demo.seed + 10000)).
Proof.
  refine (proj1 (pow_target_and_digest Demo.seed _ _ _)); reflexivity.
Defined.

(** The target of that seed has 128 bytes; the 256-byte encoding of the
    same number is another buffer. *)
Lemma pow_target_is_128_bytes :
  pow_dst Demo.seed = Some (be_bytes 128 (be_value Demo.seed + 10000))
  /\ length (be_bytes 128 (be_value Demo.seed + 10000)) = 128%nat
  /\ pow_dst Demo.seed <> Some (be_bytes 256 (be_value Demo.seed + 10000)).
Proof.
  split; [vm_compute; reflexivity|]. split; [vm_compute; reflexivity|].
  intros E. apply (f_equal (option_map (@length byte))) in E.
  vm_compute in E. discriminate.
Qed.

Lemma pow_challenge_layout_witness :
  pow_seed Demo.state
  = (Return Demo.seed,
     {| this := Demo.client;
        world := {| entropy := repeat x55 64; now_ms := 1700000000123;
                    journal := [] |} |})
  /\ exists challenge,
       journal (world (snd (enc_0x548 [] Demo.state))) = [CallCalcPoW challenge]
       /\ length challenge = 518%nat.
Proof.
  assert (pow_seed Demo.state
          = (Return Demo.seed,
             {| this := Demo.client;
                world := {| entropy := repeat x55 64; now_ms := 1700000000123;
                            journal := [] |} |})) as Hseed
    by (vm_compute; reflexivity).
  split; [exact Hseed|].
  eexists.
  destruct (pow_challenge_layout [] Demo.state Demo.seed _ Hseed)
    as (_ & Hjournal & _ & _ & Hlength).
  split; [exact Hjournal | exact Hlength].
Defined.

End Runs.

(** * Further runs

    The further properties at the sample sessions of [Demo] and [Sample]. *)

Section FurtherRuns.
Existing Instance Demo.externals.

(** X1 at tag 0x16e on a device whose model name has 65536 bytes: the
    encoder returns, the frame is refused. *)
Lemma packTlv_outcomes_witness :
  packTlv 0x16e [] Sample.long_model_state
  = (Throw RangeError, Sample.long_model_state).
Proof.
  refine (eq_trans
            (packTlv_outcomes 0x16e enc_0x16e [] Sample.long_model_state _) _).
  - reflexivity.
  - change (enc_0x16e [] Sample.long_model_state)
      with (Return {| Writer.readable := repeat x41 (Z.to_nat 65536) |},
            Sample.long_model_state).
    cbv beta iota.
    change (to_buffer (Device.model (device (this Sample.long_model_state))))
      with (repeat x41 (Z.to_nat 65536)).
    cbv [Writer.push Writer.readable Writer.empty].
    rewrite ?app_nil_r, ?app_nil_l, repeat_length.
    reflexivity.
Defined.

(** X2 at the block of tag 0x08 followed by two more bytes. *)
Lemma packTlv_block_is_self_delimiting_witness :
  be_value
    (firstn 2 ([x00; x08; x00; x08; x00; x00; x00; x00; x08; x04; x00; x00]
                 ++ [x01; x6d])) = 0x08
  /\ firstn 12 ([x00; x08; x00; x08; x00; x00; x00; x00; x08; x04; x00; x00]
                  ++ [x01; x6d])
     = [x00; x08; x00; x08; x00; x00; x00; x00; x08; x04; x00; x00]
  /\ skipn 12 ([x00; x08; x00; x08; x00; x00; x00; x00; x08; x04; x00; x00]
                 ++ [x01; x6d])
     = [x01; x6d].
Proof.
  refine (packTlv_block_is_self_delimiting 0x08 [] Demo.state
            [x00; x08; x00; x08; x00; x00; x00; x00; x08; x04; x00; x00]
            Demo.state [x01; x6d] _).
  vm_compute. reflexivity.
Defined.

(** X5 at version 2 and sub-command 9. *)
Lemma salted_signature_calls_signer_witness :
  exists salt,
    firstn 4 salt = be_bytes 4 0
    /\ enc_0x544 [Num 2; Num 9] Demo.state =
       (Return {| Writer.readable := sign 1700000000123 salt |},
        called (CallSign 1700000000123 salt) Demo.state).
Proof.
  eexists. split.
  2: { refine (salted_signature_calls_signer 2 9 [] Demo.state _ _ _ _ _).
       - discriminate.
       - lia.
       - vm_compute. split; discriminate.
       - vm_compute. discriminate.
       - vm_compute. discriminate. }
  reflexivity.
Defined.

(** X6 at a sixteen-byte password digest. *)
Lemma password_tag_payload_witness :
  let body := password_body Demo.state (repeat x66 16) in
  let fill := tea_filler (length body) in
  enc_0x106 [Data (Buf (repeat x66 16))] Demo.state =
  (Return {| Writer.readable :=
     tea_blocks (firstn fill (skipn 4 (entropy (world Demo.state)))) body
       (md5 (repeat x66 16 ++ Buffer_alloc 4 ++ be_bytes 4 123456789)) |},
   drained (4 + fill) Demo.state).
Proof.
  refine (password_tag_payload (repeat x66 16) [] Demo.state _ _ _ _ _).
  - apply Nat.leb_le. vm_compute. reflexivity.
  - vm_compute. split; discriminate.
  - vm_compute. split; discriminate.
  - vm_compute. split; discriminate.
  - vm_compute. split; discriminate.
Defined.

(** X7 at the account number [2 ^ 32 + 5]. *)
Lemma password_tag_rejects_wide_uin_witness :
  enc_0x106 [Data (Buf (repeat x66 16))] Sample.wide_uin_state =
  (Throw RangeError, drained 4 Sample.wide_uin_state).
Proof.
  refine (password_tag_rejects_wide_uin (repeat x66 16) []
            Sample.wide_uin_state _ _ _ _ _);
    vm_compute; (lia || (split; (reflexivity || discriminate))).
Defined.

(** X8 at the sample session, whose clock reads 1700000000123 ms. *)
Lemma network_tag_layout_witness :
  enc_0x01 [] Demo.state =
  (Return {| Writer.readable :=
     be_bytes 2 1
       ++ [x01; x00; x00; x00]
       ++ be_bytes 4 123456789
       ++ be_bytes 4 1700000000
       ++ to_buffer (Device.ip_address Demo.phone)
       ++ be_bytes 2 0 |}, drained 4 Demo.state).
Proof.
  refine (network_tag_layout [] Demo.state _ _ _);
    vm_compute; (lia || discriminate || (split; discriminate)).
Defined.

(** X9 at the sample session. *)
Lemma session_ticket_tag_layout_witness :
  enc_0x400 [] Demo.state =
  (Return {| Writer.readable :=
     be_bytes 2 1
       ++ be_bytes 8 123456789
       ++ to_buffer (Device.guid Demo.phone)
       ++ x01 :: repeat x00 15
       ++ be_bytes 4 1
       ++ be_bytes 4 16
       ++ be_bytes 4 1700000000 |}, drained 16 Demo.state).
Proof.
  refine (session_ticket_tag_layout [] Demo.state _ _ _);
    vm_compute; (lia || discriminate || (split; discriminate)).
Defined.

(** X10 at tag 0x107. *)
Lemma pure_tags_are_functions_of_the_client_witness :
  client_function (enc_0x107 []) /\ client_function (packTlv 0x107 []).
Proof.
  refine (pure_tags_are_functions_of_the_client 0x107 enc_0x107 [] _ _).
  - reflexivity.
  - cbn. lia.
Defined.

(** X11 at tag 0x01, which draws four bytes and reads the clock. *)
Lemma signer_and_solver_have_one_caller_each_witness :
  same_but_entropy Demo.state (snd (enc_0x01 [] Demo.state))
  /\ same_but_entropy Demo.state (snd (packTlv 0x01 [] Demo.state)).
Proof.
  refine (signer_and_solver_have_one_caller_each 0x01 enc_0x01 [] Demo.state _ _ _).
  - reflexivity.
  - discriminate.
  - discriminate.
Defined.

(** X13 on a device whose model name has 65536 bytes. *)
Lemma composite_tag_fails_on_long_model_witness :
  enc_0x144 packTlv [] Sample.long_model_state
  = (Throw RangeError, Sample.long_model_state)
  /\ packTlv 0x144 [] Sample.long_model_state
     = (Throw RangeError, Sample.long_model_state).
Proof.
  refine (composite_tag_fails_on_long_model [] Sample.long_model_state _).
  vm_compute. reflexivity.
Defined.

(** X14 at the sample session, whose first draw is accepted. *)
Lemma pow_seed_postcondition_witness :
  length Demo.seed = 128%nat
  /\ first_byte_is Demo.seed x00 = false
  /\ first_byte_is Demo.seed xff = false
  /\ tl Demo.seed = firstn 127 (skipn 1 (entropy (world Demo.state)))
  /\ exists n, (128 <= n <= length (entropy (world Demo.state)))%nat
               /\ drained 128 Demo.state = drained n Demo.state.
Proof.
  refine (pow_seed_postcondition Demo.state Demo.seed
            (drained 128 Demo.state) _).
  vm_compute. reflexivity.
Defined.

(** X15 at a world whose first draw starts with 0x00 and is followed by
    0xFF, 0x00 and 0x07: the third single draw is kept. *)
Lemma pow_seed_redraws_first_byte_witness :
  pow_seed Sample.reroll_state
  = (Return (x07 :: repeat x09 127), drained 131 Sample.reroll_state)
  /\ entropy (world (drained 131 Sample.reroll_state)) = [x08].
Proof.
  refine (pow_seed_redraws_first_byte Sample.reroll_state x00
            (repeat x09 127) [xff; x00] x07 [x08] _ _ _ _ _).
  - reflexivity.
  - reflexivity.
  - reflexivity.
  - repeat constructor.
  - reflexivity.
Defined.

End FurtherRuns.
